(** * treesaver.dimensions: helpers for measuring elements

    A shallow embedding of [src/lib/dimensions.js] and the properties of
    its size-range helpers, pixel conversion, rounding helper and
    [Metrics] snapshot.

    Numbers.  A JavaScript number is modelled as [number]: NaN, the two
    infinities, or a finite value carried as a rational ([Qc]).  The
    finite numbers of the language are the doubles, and the operations
    that can leave them are followed by the rounding of the language:
    [parseFloat] and [+] and [-] give the double nearest to the exact
    result ([to_double], ties to the even neighbour, an infinity beyond
    the range); [%], [Math.ceil], [Math.max] and [Math.min] of doubles
    are doubles already.  Engines round a long numeral correctly,
    which is what [parseFloat] does here.  [+0] and [-0] are
    identified, which none of the operators used by the module ([||],
    [!], [>=], [<=], [!==], [+], [-], [%], [Math.max], [Math.min],
    [Math.ceil]) can tell apart.

    Values.  A [value] is [undefined], [null], a boolean, a number, a
    string, or an object known by its identity, functions included.
    The records of the module are finite maps from property names to
    values.  An absent property of a range or of a size reads as
    [undefined]; a Metrics object in the store is read through its
    prototype, which [clone] depends on.

    Scope.  [Metrics] follows the module as it is loaded where
    [getComputedStyle] exists.  The replacement of [toPixels] installed
    for Internet Explorer under [SUPPORT_IE], and [setCssPx], are
    embedded on their own further down: the first over the properties
    of the element it touches, the second over a style whose
    assignment is left to the host. *)

From Stdlib Require Import ZArith QArith Qcanon Qround Lia.
From Stdlib Require Import Ascii String DecimalString.
From stdpp Require Import base option gmap strings list fin_maps.

Local Open Scope Z_scope.

(* ================================================================== *)
(** ** Numbers *)
(* ================================================================== *)

Inductive number : Type :=
  | NaN
  | PInf
  | NInf
  | Fin (q : Qc).

Definition numZ (z : Z) : number := Fin (Qc_of_Z z).

(** Equality of canonical rationals as a boolean that computes. *)
Definition Qc_eqb (x y : Qc) : bool := Qeq_bool x y.

Definition Qc_leb (x y : Qc) : bool := Qle_bool x y.

(** [===] on numbers: NaN differs from everything, itself included. *)
Definition num_eqb (a b : number) : bool :=
  match a, b with
  | PInf, PInf | NInf, NInf => true
  | Fin x, Fin y => Qc_eqb x y
  | _, _ => false
  end.

(** [a <= b] on numbers; any comparison with NaN is false. *)
Definition num_leb (a b : number) : bool :=
  match a, b with
  | NaN, _ | _, NaN => false
  | NInf, _ => true
  | _, PInf => true
  | PInf, _ => false
  | _, NInf => false
  | Fin x, Fin y => Qc_leb x y
  end.

(** [a >= b] on numbers. *)
Definition num_geb (a b : number) : bool := num_leb b a.

Definition num_opp (a : number) : number :=
  match a with
  | NaN => NaN
  | PInf => NInf
  | NInf => PInf
  | Fin x => Fin (- x)%Qc
  end.

(** *** Rounding to a double

    A finite JavaScript number is a double: a multiple of [2^e], at most
    53 bits long, where [e] is at least [-1074], and below [2^1024] in
    magnitude.  [to_double q] is the double the runtime makes of the
    exact value [q]: the nearest one, the one with the even multiplier
    when two are equally near, and an infinity when the nearest one is
    out of range. *)

(** Whether [2^k <= n/d], for positive [n] and [d]. *)
Definition pow2_leb (k n d : Z) : bool :=
  if 0 <=? k then d * 2 ^ k <=? n else d <=? n * 2 ^ (- k).

(** The integer part of the binary logarithm of [n/d]: it is
    [log2 n - log2 d] or one less. *)
Definition log2_floor (n d : Z) : Z :=
  let k := Z.log2 n - Z.log2 d in
  if pow2_leb k n d then k else k - 1.

(** The integer nearest to [n/d], the even one of two equally near. *)
Definition round_half_even (n d : Z) : Z :=
  let f := n / d in
  match 2 * (n mod d) ?= d with
  | Lt => f
  | Gt => f + 1
  | Eq => if Z.even f then f else f + 1
  end.

(** [n/d], positive, rounded to 53 bits: to a multiple of [2^e], where
    [e] is 52 below the binary logarithm and no less than [-1074]. *)
Definition round_positive (n d : Z) : Q :=
  let e := Z.max (log2_floor n d - 52) (-1074) in
  if 0 <=? e
  then inject_Z (round_half_even n (d * 2 ^ e) * 2 ^ e)
  else Qmake (round_half_even (n * 2 ^ (- e)) d) (Z.to_pos (2 ^ (- e))).

Definition double_limit : Q := inject_Z (2 ^ 1024).

Definition to_double (q : Qc) : number :=
  match Qnum q with
  | Z0 => Fin q
  | Zpos n =>
      let v := round_positive (Zpos n) (Zpos (Qden q)) in
      if Qle_bool double_limit v then PInf else Fin (Q2Qc v)
  | Zneg n =>
      let v := round_positive (Zpos n) (Zpos (Qden q)) in
      if Qle_bool double_limit v then NInf else Fin (Q2Qc (- v))
  end.

(** [a + b]: the exact sum rounded to a double.  Adding zero gives the
    other operand as it is. *)
Definition num_add (a b : number) : number :=
  match a, b with
  | NaN, _ | _, NaN => NaN
  | PInf, NInf | NInf, PInf => NaN
  | PInf, _ | _, PInf => PInf
  | NInf, _ | _, NInf => NInf
  | Fin x, Fin y =>
      if Qc_eqb y (Qc_of_Z 0) then Fin x
      else if Qc_eqb x (Qc_of_Z 0) then Fin y
      else to_double (x + y)%Qc
  end.

Definition num_sub (a b : number) : number := num_add a (num_opp b).

(** [Math.max] and [Math.min] of two arguments. *)
Definition num_max (a b : number) : number :=
  match a, b with
  | NaN, _ | _, NaN => NaN
  | _, _ => if num_leb a b then b else a
  end.

Definition num_min (a b : number) : number :=
  match a, b with
  | NaN, _ | _, NaN => NaN
  | _, _ => if num_leb a b then a else b
  end.

(** [Math.ceil]. *)
Definition num_ceil (a : number) : number :=
  match a with
  | Fin x => numZ (Qceiling x)
  | _ => a
  end.

(** Integer part of a rational, rounding toward zero. *)
Definition Qc_trunc (x : Qc) : Z := Z.quot (Qnum x) (Zpos (Qden x)).

(** [a % b]: the remainder has the sign of the dividend; it is NaN when
    the dividend is not finite or the divisor is zero, and the dividend
    itself when the divisor is infinite.  The remainder of two doubles
    is a double, so nothing is rounded. *)
Definition num_rem (a b : number) : number :=
  match a, b with
  | NaN, _ | _, NaN => NaN
  | PInf, _ | NInf, _ => NaN
  | Fin x, PInf | Fin x, NInf => Fin x
  | Fin x, Fin y =>
      if Qc_eqb y (Qc_of_Z 0) then NaN
      else Fin (x - y * Qc_of_Z (Qc_trunc (x / y)))%Qc
  end.

(** The order on numbers as a proposition: NaN is unordered. *)
Definition num_le (a b : number) : Prop :=
  match a, b with
  | NaN, _ | _, NaN => False
  | NInf, _ => True
  | _, PInf => True
  | PInf, _ => False
  | _, NInf => False
  | Fin x, Fin y => (x <= y)%Qc
  end.

(* ================================================================== *)
(** ** Values and the operators the module applies to them *)
(* ================================================================== *)

Inductive value : Type :=
  | VUndef
  | VNull
  | VBool (b : bool)
  | VNum (n : number)
  | VStr (s : string)
  | VObj (id : string).

(** The conversions between strings and numbers, and the text of an
    object, belong to the language runtime.  They only matter when a
    string or an object reaches an arithmetic operator, which the
    declared types of the module rule out; the operators below are
    nevertheless defined on every value by taking the conversions as an
    interface.  [ObjectToString id] is what [toString] returns on the
    object [id]; an operator turns an object into a primitive through
    it, as it does for functions and plain objects, whose [valueOf]
    returns the object itself. *)
Class Runtime : Type := {
  StringToNumber : string -> number;
  NumberToString : number -> string;
  ObjectToString : string -> string
}.

(** Truthiness: [undefined], [null], [false], [0], NaN and the empty
    string are falsy. *)
Definition to_boolean (v : value) : bool :=
  match v with
  | VUndef | VNull => false
  | VBool b => b
  | VNum NaN => false
  | VNum (Fin q) => negb (Qc_eqb q (Qc_of_Z 0))
  | VNum _ => true
  | VStr s => negb (String.eqb s "")
  | VObj _ => true
  end.

(** [a || b] *)
Definition js_or (a b : value) : value :=
  if to_boolean a then a else b.

(** [a === b] and [a !== b] *)
Definition strict_eqb (a b : value) : bool :=
  match a, b with
  | VUndef, VUndef | VNull, VNull => true
  | VBool x, VBool y => Bool.eqb x y
  | VNum x, VNum y => num_eqb x y
  | VStr x, VStr y => String.eqb x y
  | VObj x, VObj y => String.eqb x y
  | _, _ => false
  end.

Definition strict_neqb (a b : value) : bool := negb (strict_eqb a b).

Section Operators.
Context `{Runtime}.

Definition to_number (v : value) : number :=
  match v with
  | VUndef => NaN
  | VNull => numZ 0
  | VBool true => numZ 1
  | VBool false => numZ 0
  | VNum n => n
  | VStr s => StringToNumber s
  | VObj o => StringToNumber (ObjectToString o)
  end.

Definition to_string (v : value) : string :=
  match v with
  | VUndef => "undefined"
  | VNull => "null"
  | VBool true => "true"
  | VBool false => "false"
  | VNum n => NumberToString n
  | VStr s => s
  | VObj o => ObjectToString o
  end.

(** [a + b]: concatenation as soon as one operand is a string, or an
    object, which stands for its text. *)
Definition js_add (a b : value) : value :=
  match a, b with
  | VStr _, _ | _, VStr _ | VObj _, _ | _, VObj _ =>
      VStr (to_string a ++ to_string b)
  | _, _ => VNum (num_add (to_number a) (to_number b))
  end.

(** [a - b] *)
Definition js_sub (a b : value) : value :=
  VNum (num_sub (to_number a) (to_number b)).

(** [a % b] *)
Definition js_rem (a b : value) : value :=
  VNum (num_rem (to_number a) (to_number b)).

(** The text an operand of a comparison stands for, when it is a
    string or an object. *)
Definition as_text (v : value) : option string :=
  match v with
  | VStr s => Some s
  | VObj o => Some (ObjectToString o)
  | _ => None
  end.

(** [a <= b] and [a >= b]: two texts are compared as strings, anything
    else as numbers. *)
Definition js_le (a b : value) : bool :=
  match as_text a, as_text b with
  | Some x, Some y => String.leb x y
  | _, _ => num_leb (to_number a) (to_number b)
  end.

Definition js_ge (a b : value) : bool :=
  match as_text a, as_text b with
  | Some x, Some y => String.leb y x
  | _, _ => num_geb (to_number a) (to_number b)
  end.

Definition Math_max (a b : value) : value :=
  VNum (num_max (to_number a) (to_number b)).

Definition Math_min (a b : value) : value :=
  VNum (num_min (to_number a) (to_number b)).

Definition Math_ceil (a : value) : value :=
  VNum (num_ceil (to_number a)).
End Operators.

(** Objects: property name to value; [get o k] is the read [o.k]. *)
Abbreviation obj := (gmap string value).

Definition get (o : obj) (k : string) : value := default VUndef (o !! k).

(** An object all of whose properties are numbers, seen as an object. *)
Definition of_numbers (m : gmap string number) : obj := VNum <$> m.

(* ================================================================== *)
(** ** Size ranges *)
(* ================================================================== *)

Section Ranges.
Context `{Runtime}.

(** [treesaver.dimensions.inSizeRange(range, size)].  [range] is a
    [SizeRange] or absent ([None] stands for [null] and [undefined]);
    an object is always truthy. *)
Definition inSizeRange (range : option obj) (size : obj) : bool :=
  match range with
  | None => false
  | Some range =>
      js_ge (get size "w") (get range "minW") &&
      js_ge (get size "h") (get range "minH") &&
      (negb (to_boolean (get range "maxW")) ||
       js_le (get size "w") (get range "maxW")) &&
      (negb (to_boolean (get range "maxH")) ||
       js_le (get size "h") (get range "maxH"))
  end.

(** The two locals of [mergeSizeRange]: the border and padding added to
    the measurements of [b] when [outer] is set. *)
Definition bpHeight_of (b : obj) (outer : bool) : value :=
  if outer then
    js_or (get b "bpHeight")
          (if to_boolean (get b "outerHeight")
           then js_sub (get b "outerHeight") (get b "height")
           else VNum (numZ 0))
  else VNum (numZ 0).

Definition bpWidth_of (b : obj) (outer : bool) : value :=
  if outer then
    js_or (get b "bpWidth")
          (if to_boolean (get b "outerWidth")
           then js_sub (get b "outerWidth") (get b "width")
           else VNum (numZ 0))
  else VNum (numZ 0).

(** [treesaver.dimensions.mergeSizeRange(a, b, outer)] *)
Definition mergeSizeRange (a b : option obj) (outer : bool) : obj :=
  let a := default ∅ a in
  let b := default ∅ b in
  let bpHeight := bpHeight_of b outer in
  let bpWidth := bpWidth_of b outer in
  <["width" := Math_max (js_or (get a "width") (VNum (numZ 0)))
                        (js_or (js_add (get b "width") bpWidth)
                               (VNum (numZ 0)))]>
  (<["height" := Math_max (js_or (get a "height") (VNum (numZ 0)))
                          (js_or (js_add (get b "height") bpHeight)
                                 (VNum (numZ 0)))]>
  (<["maxW" := Math_min (js_or (get a "maxW") (VNum PInf))
                        (js_or (js_add (get b "maxW") bpWidth)
                               (VNum PInf))]>
  (<["maxH" := Math_min (js_or (get a "maxH") (VNum PInf))
                        (js_or (js_add (get b "maxH") bpHeight)
                               (VNum PInf))]> ∅))).
End Ranges.

(* ================================================================== *)
(** ** Pixel strings *)
(* ================================================================== *)

(** The value of a decimal digit [\d], from its character code. *)
Definition digit_val (c : ascii) : option Z :=
  let n := Z.of_N (N_of_ascii c) in
  if (48 <=? n) && (n <=? 57) then Some (n - 48) else None.

Definition is_digit (c : ascii) : bool :=
  match digit_val c with Some _ => true | None => false end.

(** Reads the longest run of decimal digits at the head of [s]: its
    value on top of [acc], and what follows it. *)
Fixpoint read_digits (acc : Z) (s : string) : Z * string :=
  match s with
  | String c r =>
      match digit_val c with
      | Some d => read_digits (10 * acc + d) r
      | None => (acc, s)
      end
  | EmptyString => (acc, s)
  end.

(** [(?:px)?$] under the [i] flag: nothing, or [px] in either case,
    and then the end of the string. *)
Definition px_suffix_test (s : string) : bool :=
  match s with
  | EmptyString => true
  | String p (String x EmptyString) =>
      (Ascii.eqb p "p" || Ascii.eqb p "P") &&
      (Ascii.eqb x "x" || Ascii.eqb x "X")
  | _ => false
  end.

(** [treesaver.dimensions.pixel.test(s)] for the expression
    [/^-?\d+(?:px)?$/i].  A minus sign is not a digit and a digit is
    not a [p], so the greedy reading below is the only way to match. *)
Definition pixel_test (s : string) : bool :=
  let s := match s with String "-"%char r => r | _ => s end in
  match s with
  | String c _ =>
      is_digit c && px_suffix_test (snd (read_digits 0 s))
  | EmptyString => false
  end.

(** [parseFloat(s)] on the strings the module hands to it: an optional
    sign, then decimal digits, read up to the first character that is
    not a digit; the result is the double nearest to the integer they
    denote, and NaN when no digit is there.  (The builtin also skips
    leading blanks and reads a fraction and an exponent; a string
    accepted by [pixel_test] has none of them.) *)
Definition parseFloat (s : string) : number :=
  let '(neg, r) :=
    match s with
    | String "-"%char r => (true, r)
    | String "+"%char r => (false, r)
    | _ => (false, s)
    end in
  match r with
  | String c _ =>
      if is_digit c
      then let n := fst (read_digits 0 r) in
           to_double (Qc_of_Z (if neg then - n else n))
      else NaN
  | EmptyString => NaN
  end.

(* ================================================================== *)
(** ** Elements *)
(* ================================================================== *)

(** What the module reads of an element: its computed style, a map from
    property names to strings, and its rendered box. *)
Record Element : Type := {
  computedStyle : gmap string string;
  offsetWidth : number;
  offsetHeight : number
}.

(** [treesaver.dimensions.getStyleObject(el)] *)
Definition getStyleObject (el : Element) : gmap string string :=
  computedStyle el.

(** The read [style.k] as a value. *)
Definition style_get (style : gmap string string) (k : string) : value :=
  match style !! k with
  | Some s => VStr s
  | None => VUndef
  end.

(** [treesaver.dimensions.toPixels(el, val)]; [val] is a string or
    absent, the result a number or [null]. *)
Definition toPixels (el : Element) (val : option string) : value :=
  match val with
  | Some s =>
      if negb (String.eqb s "") && pixel_test s
      then VNum (parseFloat s)
      else VNull
  | None => VNull
  end.

(* ================================================================== *)
(** ** Rounding *)
(* ================================================================== *)

(** [treesaver.dimensions.roundUp(number, base)] *)
Definition roundUp (num base : number) : number :=
  num_sub (num_add (num_ceil num) base) (num_rem num base).

(* ================================================================== *)
(** ** Metrics *)
(* ================================================================== *)

Section Metrics.
Context `{Runtime}.

(** The constant [0] and [toPixels(el, style.k) || 0]. *)
Definition zero : value := VNum (numZ 0).

Definition px_or_zero (el : Element) (style : gmap string string)
    (k : string) : value :=
  js_or (toPixels el (style !! k)) zero.

(** [(!tmp || tmp === -1) ? Infinity : tmp] *)
Definition max_or_infinity (tmp : value) : value :=
  if negb (to_boolean tmp) || strict_eqb tmp (VNum (numZ (-1)))
  then VNum PInf
  else tmp.

(** The body of the constructor [treesaver.dimensions.Metrics(el)]
    run on [this]: without an element it returns at once; otherwise
    the assignments to [this] are carried out in the order of the
    source, each one reading back the properties set before it. *)
Definition Metrics_init (el : option Element) (this : obj) : obj :=
  match el with
  | None => this
  | Some el =>
      let style := getStyleObject el in
      let this := <["display" := style_get style "display"]> this in
      let this := <["position" := style_get style "position"]> this in
      let this := <["marginTop" := px_or_zero el style "marginTop"]> this in
      let this :=
        <["marginBottom" := px_or_zero el style "marginBottom"]> this in
      let this := <["marginLeft" := px_or_zero el style "marginLeft"]> this in
      let this :=
        <["marginRight" := px_or_zero el style "marginRight"]> this in
      let this :=
        <["marginHeight" :=
            js_add (get this "marginTop") (get this "marginBottom")]> this in
      let this :=
        <["marginWidth" :=
            js_add (get this "marginLeft") (get this "marginRight")]> this in
      let this :=
        <["borderTop" := px_or_zero el style "borderTopWidth"]> this in
      let this :=
        <["borderBottom" := px_or_zero el style "borderBottomWidth"]> this in
      let this :=
        <["borderLeft" := px_or_zero el style "borderLeftWidth"]> this in
      let this :=
        <["borderRight" := px_or_zero el style "borderRightWidth"]> this in
      let this := <["paddingTop" := px_or_zero el style "paddingTop"]> this in
      let this :=
        <["paddingBottom" := px_or_zero el style "paddingBottom"]> this in
      let this :=
        <["paddingLeft" := px_or_zero el style "paddingLeft"]> this in
      let this :=
        <["paddingRight" := px_or_zero el style "paddingRight"]> this in
      let this :=
        <["bpTop" :=
            js_add (get this "borderTop") (get this "paddingTop")]> this in
      let this :=
        <["bpBottom" :=
            js_add (get this "borderBottom") (get this "paddingBottom")]>
          this in
      let this :=
        <["bpHeight" :=
            js_add (get this "bpTop") (get this "bpBottom")]> this in
      let this :=
        <["bpLeft" :=
            js_add (get this "borderLeft") (get this "paddingLeft")]> this in
      let this :=
        <["bpRight" :=
            js_add (get this "borderRight") (get this "paddingRight")]>
          this in
      let this :=
        <["bpWidth" := js_add (get this "bpLeft") (get this "bpRight")]>
          this in
      let this := <["outerW" := VNum (offsetWidth el)]> this in
      let this := <["outerH" := VNum (offsetHeight el)]> this in
      let this :=
        <["width" := js_sub (get this "outerW") (get this "bpWidth")]>
          this in
      let this :=
        <["height" := js_sub (get this "outerH") (get this "bpHeight")]>
          this in
      let this := <["minW" := px_or_zero el style "minWidth"]> this in
      let this := <["minH" := px_or_zero el style "minHeight"]> this in
      let tmp := toPixels el (style !! "maxWidth") in
      let this := <["maxW" := max_or_infinity tmp]> this in
      let tmp := toPixels el (style !! "maxHeight") in
      let this := <["maxH" := max_or_infinity tmp]> this in
      let this :=
        <["lineHeight" :=
            js_or (toPixels el (style !! "lineHeight")) VNull]> this in
      this
  end.

(** [new treesaver.dimensions.Metrics(el)] as a value: the constructor
    run on a fresh object without properties of its own. *)
Definition Metrics (el : option Element) : obj := Metrics_init el ∅.
End Metrics.

(* ================================================================== *)
(** ** Metrics objects in the store, and [clone] *)
(* ================================================================== *)

(** Objects are mutable and referred to by address; the store maps an
    address to the object's own properties. *)
Abbreviation loc := positive.
Abbreviation heap := (gmap loc obj).

(** The write [l.k = v]. *)
Definition hset (h : heap) (l : loc) (k : string) (v : value) : heap :=
  alter (insert k v) l h.

Section Clone.
Context `{Runtime}.

(** What every Metrics object inherits.  [prototype] maps the name of
    an inherited property to the identity of the function it holds: the
    methods the module puts on [Metrics.prototype] and those the host
    puts on [Object.prototype].  [enumerable] lists the inherited names
    that a [for (key in ...)] loop visits. *)
Variable prototype : gmap string string.
Variable enumerable : list string.

Definition inherited (k : string) : value :=
  match prototype !! k with
  | Some f => VObj f
  | None => VUndef
  end.

(** The read [o.k] on the properties [o] that an object owns: its own
    property, else the inherited one, else [undefined]. *)
Definition read (o : obj) (k : string) : value :=
  default (inherited k) (o !! k).

(** The read [l.k] in the store. *)
Definition hget (h : heap) (l : loc) (k : string) : value :=
  read (default ∅ (h !! l)) k.

(** [new treesaver.dimensions.Metrics(el)]: a fresh address, on which
    the constructor runs. *)
Definition new_Metrics (el : option Element) (h : heap) : loc * heap :=
  let l := fresh (dom h) in
  (l, <[l := Metrics_init el ∅]> h).

(** The body of the loop of [clone], for one [key]. *)
Definition clone_step (this copy : loc) (h : heap) (key : string) : heap :=
  if strict_neqb (hget h copy key) (hget h this key)
  then hset h copy key (hget h this key)
  else h.

(** [treesaver.dimensions.Metrics.prototype.clone], called on the
    object at [this].  [for (key in this)] runs over the own
    properties of [this] (all of them enumerable, being created by
    assignment), each once, and then over the enumerable properties
    [this] inherits and does not own.  Each turn reads and writes one
    property only, so the order of the visits is immaterial. *)
Definition clone (this : loc) (h : heap) : loc * heap :=
  let '(copy, h) := new_Metrics None h in
  let own := (map_to_list (default ∅ (h !! this))).*1 in
  let keys := own ++ filter (fun k => k ∉ own) enumerable in
  (copy, foldl (clone_step this copy) h keys).
End Clone.

(* ================================================================== *)
(** ** The pixel setter and the legacy conversion *)
(* ================================================================== *)

(** [treesaver.dimensions.number.test(s)] for the expression
    [/^-?\d/]: an optional minus sign and a digit at the head of the
    string, whatever follows. *)
Definition number_test (s : string) : bool :=
  let s := match s with String "-"%char r => r | _ => s end in
  match s with
  | String c _ => is_digit c
  | EmptyString => false
  end.

Section Setter.
Context `{Runtime}.

(** The inline style of an element belongs to the host: [Style] is its
    state, and [assign style k v] the state after [el.style[k] = v],
    whatever the host makes of the value. *)
Variable Style : Type.
Variable assign : Style -> string -> value -> Style.

(** [treesaver.dimensions.setCssPx(el, propName, val)], on the inline
    style of the element: the style after the assignment
    [el.style[propName] = val + 'px'], and the value returned. *)
Definition setCssPx (style : Style) (propName : string) (val : number)
    : Style * number :=
  (assign style propName (js_add (VNum val) (VStr "px")), val).
End Setter.

(** What the replacement of [toPixels] touches of an element:
    [el.style.left], [el.runtimeStyle.left] and [el.currentStyle.left],
    each a plain property. *)
Record LegacyElement : Type := {
  style_left : value;
  runtimeStyle_left : value;
  currentStyle_left : value
}.

Section Legacy.
(** [el.style.pixelLeft], which the host computes from the state of the
    element at the time it is read. *)
Variable pixelLeft : LegacyElement -> value.

(** The [toPixels] installed under [SUPPORT_IE] when
    [getComputedStyle] is missing: the value returned and the element
    as the call leaves it. *)
Definition toPixels_IE (el : LegacyElement) (val : option string)
    : value * LegacyElement :=
  match val with
  | Some s =>
      if negb (String.eqb s "") && pixel_test s
      then (VNum (parseFloat s), el)
      else if negb (String.eqb s "") && number_test s
      then
        let style := style_left el in
        let runtimeStyle := runtimeStyle_left el in
        let el := {| style_left := style_left el;
                     runtimeStyle_left := currentStyle_left el;
                     currentStyle_left := currentStyle_left el |} in
        let el := {| style_left := js_or (VStr s) (VNum (numZ 0));
                     runtimeStyle_left := runtimeStyle_left el;
                     currentStyle_left := currentStyle_left el |} in
        let value := pixelLeft el in
        let el := {| style_left := style;
                     runtimeStyle_left := runtimeStyle_left el;
                     currentStyle_left := currentStyle_left el |} in
        let el := {| style_left := style_left el;
                     runtimeStyle_left := runtimeStyle;
                     currentStyle_left := currentStyle_left el |} in
        (value, el)
      else (VNull, el)
  | None => (VNull, el)
  end.
End Legacy.

(* ================================================================== *)
(** ** Vocabulary of the statements *)
(* ================================================================== *)

Global Instance number_eq_dec : EqDecision number.
Proof. solve_decision. Defined.

Global Instance value_eq_dec : EqDecision value.
Proof. solve_decision. Defined.

(** *** Ranges and the merge *)

(** A property of an object of numbers, read as a value. *)
Definition fld (o : option number) : value :=
  match o with
  | Some n => VNum n
  | None => VUndef
  end.

(** Bounds between two properties that may be missing: a comparison
    holds only between two numbers. *)
Definition at_least (x lo : option number) : Prop :=
  match x, lo with
  | Some a, Some b => num_le b a
  | _, _ => False
  end.

Definition at_most (x hi : option number) : Prop :=
  match x, hi with
  | Some a, Some b => num_le a b
  | _, _ => False
  end.

(** A maximum that is unset (absent, or not a number) or zero. *)
Definition unset_or_zero (m : option number) : Prop :=
  m = None \/ m = Some NaN \/ m = Some (numZ 0).

(** A property that is set to a number other than zero: what [||]
    lets through. *)
Definition nonzero (m : option number) : option number :=
  match m with
  | Some (Fin q) => if decide (q = Qc_of_Z 0) then None else m
  | Some NaN => None
  | _ => m
  end.

(** The minimum and the maximum that a property of a range stands for. *)
Definition min_of (m : option number) : number :=
  default (numZ 0) (nonzero m).

Definition max_of (m : option number) : number :=
  default PInf (nonzero m).

(** The maximum a property stands for when only an absent one counts as
    unbounded. *)
Definition max_absent_inf (m : option number) : number :=
  default PInf m.

(** [r] is the larger, respectively the smaller, of [x] and [y]. *)
Definition larger_of (x y r : number) : Prop :=
  (r = x \/ r = y) /\ num_le x r /\ num_le y r.

Definition smaller_of (x y r : number) : Prop :=
  (r = x \/ r = y) /\ num_le r x /\ num_le r y.

(** A measurement of the metrics with the footprint added to it. *)
Definition plus_footprint (m : option number) (fp : number) : option number :=
  match m with
  | Some n => Some (num_add n fp)
  | None => None
  end.

(** The border and padding of a metrics object along one axis, from its
    aggregate [bp], its outer size and its inner size: the aggregate
    when it is set and not zero, else outer minus inner when the outer
    size is set and not zero (not a number if the inner size is
    missing), else nothing. *)
Definition footprint (bp outer_size inner : option number) : number :=
  match nonzero bp with
  | Some x => x
  | None =>
      match nonzero outer_size with
      | Some o => num_sub o (default NaN inner)
      | None => numZ 0
      end
  end.

(** The same when the fallback is taken only for an absent aggregate. *)
Definition footprint_if_absent (bp outer_size inner : option number) : number :=
  match bp with
  | Some x => x
  | None =>
      match outer_size, inner with
      | Some o, Some i => num_sub o i
      | _, _ => numZ 0
      end
  end.

(** A property of any object that holds a number or is absent, and the
    number it holds. *)
Definition number_or_absent (o : obj) (k : string) : Prop :=
  match o !! k with
  | None | Some (VNum _) => True
  | Some _ => False
  end.

Global Instance number_or_absent_dec (o : obj) (k : string) :
  Decision (number_or_absent o k).
Proof. unfold number_or_absent. destruct (o !! k) as [[]|]; apply _. Defined.

Definition num_at (o : obj) (k : string) : option number :=
  match o !! k with
  | Some (VNum n) => Some n
  | _ => None
  end.

(** The properties [mergeSizeRange] reads of its first argument, and
    those it reads of the second when [outer] is set. *)
Definition range_keys : list string :=
  ["width"; "height"; "maxW"; "maxH"]%string.

Definition footprint_keys : list string :=
  ["bpWidth"; "bpHeight"; "outerWidth"; "outerHeight"]%string.

(** The object literal [{width, height, maxW, maxH}]. *)
Definition size_range (w h mw mh : number) : obj :=
  <["width" := VNum w]> (<["height" := VNum h]>
  (<["maxW" := VNum mw]> (<["maxH" := VNum mh]> ∅))).

(** *** Pixel literals *)

(** Pixel literals, as the pattern describes them: an optional minus
    sign, a numeral of one or more decimal digits (most significant
    first), and an optional [px] in either case. *)
Definition digit_char (d : nat) : ascii := ascii_of_nat (48 + d).

Definition numeral (ds : list nat) : string :=
  string_of_list_ascii (digit_char <$> ds).

Definition numeral_value (ds : list nat) : Z :=
  fold_left (fun acc d => 10 * acc + Z.of_nat d) ds 0.

Definition is_numeral (ds : list nat) : Prop :=
  ds <> [] /\ Forall (fun d => (d < 10)%nat) ds.

Definition px_suffix (t : string) : Prop :=
  In t ["" ; "px" ; "pX" ; "Px" ; "PX"]%string.

Definition pixel_literal (neg : bool) (ds : list nat) (t : string) : string :=
  ((if neg then "-" else "") ++ numeral ds ++ t)%string.

Definition is_pixel_literal (s : string) : Prop :=
  exists neg ds t, is_numeral ds /\ px_suffix t /\ s = pixel_literal neg ds t.

(** The integer a pixel literal denotes, and the number it stands for:
    the double nearest to that integer. *)
Definition literal_integer (neg : bool) (ds : list nat) : Z :=
  if neg then - numeral_value ds else numeral_value ds.

Definition literal_value (neg : bool) (ds : list nat) : number :=
  to_double (Qc_of_Z (literal_integer neg ds)).

(** The integers that are doubles without a gap between them. *)
Definition exact_integer (z : Z) : Prop := Z.abs z <= 2 ^ 53.

(** What [read_digits] leaves is not headed by a digit. *)
Definition no_digit_ahead (t : string) : Prop :=
  match t with
  | String c _ => digit_val c = None
  | EmptyString => True
  end.

(** The pixels a computed-style value stands for: the number it parses
    to, and 0 when it is not a pixel string. *)
Definition parsed (val : option string) : number :=
  match val with
  | Some s => if pixel_test s then parseFloat s else numZ 0
  | None => numZ 0
  end.

(** A computed-style value that is a pixel string, and one that is a
    pixel string with a minus sign. *)
Definition pixel_string (val : option string) : Prop :=
  exists s, val = Some s /\ is_pixel_literal s.

Definition negative_literal (val : option string) : Prop :=
  exists ds t,
    is_numeral ds /\ px_suffix t /\ val = Some (pixel_literal true ds t).

(** *** Rounding *)

(** [r] is an integer multiple of [base]. *)
Definition multiple_of (r base : number) : Prop :=
  match r, base with
  | Fin x, Fin b => exists k : Z, x = (Qc_of_Z k * b)%Qc
  | _, _ => False
  end.

(** *** Snapshots and their copies *)

(** The twelve per-side properties of a snapshot, each with the
    computed-style property it is read from. *)
Definition side_fields : list (string * string) :=
  [("marginTop", "marginTop"); ("marginBottom", "marginBottom");
   ("marginLeft", "marginLeft"); ("marginRight", "marginRight");
   ("borderTop", "borderTopWidth"); ("borderBottom", "borderBottomWidth");
   ("borderLeft", "borderLeftWidth"); ("borderRight", "borderRightWidth");
   ("paddingTop", "paddingTop"); ("paddingBottom", "paddingBottom");
   ("paddingLeft", "paddingLeft"); ("paddingRight", "paddingRight")]%string.

(** The computed-style properties that make up the border and padding
    of a snapshot. *)
Definition footprint_styles : list string :=
  ["borderTopWidth"; "borderBottomWidth";
   "borderLeftWidth"; "borderRightWidth";
   "paddingTop"; "paddingBottom"; "paddingLeft"; "paddingRight"]%string.

(** A whole number of at most 2^50 in magnitude: sums of four of them,
    and such a sum taken from or added to a fifth, are exact. *)
Definition small (n : number) : Prop :=
  match n with
  | Fin q => Qden q = 1%positive /\ Z.abs (Qnum q) <= 2 ^ 50
  | _ => False
  end.

Global Instance small_dec (n : number) : Decision (small n).
Proof. destruct n; apply _. Defined.


Section CloneVocabulary.
Variable prototype : gmap string string.

(** The own properties of an object that hold something else than what
    the prototype gives under their name ([undefined] when it gives
    nothing). *)
Definition kept_properties (o : obj) : obj :=
  filter (fun kv : string * value => kv.2 <> inherited prototype kv.1) o.

(** What [clone] owes its caller, for a source object [o] stored at
    [this] in [h] and a result [(copy, h')]: the copy is a new object,
    the source and every older object are as they were, every property
    reads the same on the copy as on the source, the own properties of
    the copy are those of the source that hold something else than
    what the prototype gives under their name, and a later write to the
    copy is seen on the copy only. *)
Definition clone_post (this : loc) (o : obj) (h : heap)
    (r : loc * heap) : Prop :=
  let copy := r.1 in
  let h' := r.2 in
  h !! copy = None /\ copy <> this /\
  (forall l, l <> copy -> h' !! l = h !! l) /\
  (forall k, hget prototype h' copy k = hget prototype h' this k) /\
  h' !! copy = Some (kept_properties o) /\
  (forall k v,
     hset h' copy k v !! this = Some o /\
     hget prototype (hset h' copy k v) copy k = v).

(** One turn of the loop of [clone] seen on the two objects. *)
Definition copy_step (o oc : obj) (key : string) : obj :=
  if strict_neqb (read prototype oc key) (read prototype o key)
  then <[key := read prototype o key]> oc
  else oc.
End CloneVocabulary.

(** *** Worked inputs *)

(** Objects of numbers used in the examples. *)
Definition numbers (l : list (string * Z)) : gmap string number :=
  list_to_map (prod_map id numZ <$> l).

(** A range with both minimums and a maximum width, and a size on its
    bounds. *)
Definition range_100_200 : gmap string number :=
  numbers [("minW", 100); ("minH", 50); ("maxW", 200)].

Definition size_200_50 : gmap string number :=
  numbers [("w", 200); ("h", 50)].

(** The range and the metrics of the worked example of the merge. *)
Definition range_50_300 : gmap string number :=
  numbers [("width", 50); ("height", 50); ("maxW", 300); ("maxH", 300)].

Definition metrics_100_20 : gmap string number :=
  numbers [("width", 100); ("bpWidth", 20); ("height", 50);
           ("bpHeight", 10); ("maxW", 200); ("maxH", 100)].

(** A range capped at zero, one capped at 100, and a metrics object
    whose aggregate [bpWidth] is zero while its outer width is not. *)
Definition cap_0 : gmap string number := numbers [("maxW", 0)].

Definition cap_100 : gmap string number := numbers [("maxW", 100)].

Definition metrics_bp_0 : gmap string number :=
  numbers [("width", 100); ("bpWidth", 0); ("outerWidth", 120)].

(** Seven and a half, and ten and a half. *)
Definition seven_and_a_half : number := Fin (Q2Qc (15 # 2)).

Definition ten_and_a_half : number := Fin (Q2Qc (21 # 2)).

(** An element whose margins are [10px], borders [2px] and paddings
    [3px] on every side, rendered 100 by 50. *)
Definition boxed_style : gmap string string :=
  list_to_map
    ([("marginTop", "10px"); ("marginBottom", "10px");
      ("marginLeft", "10px"); ("marginRight", "10px");
      ("borderTopWidth", "2px"); ("borderBottomWidth", "2px");
      ("borderLeftWidth", "2px"); ("borderRightWidth", "2px");
      ("paddingTop", "3px"); ("paddingBottom", "3px");
      ("paddingLeft", "3px"); ("paddingRight", "3px")]%string).

Definition boxed_element : Element :=
  {| computedStyle := boxed_style;
     offsetWidth := numZ 100;
     offsetHeight := numZ 50 |}.

(** An element with a negative top margin, and one with a negative
    maximum width. *)
Definition negative_margin_element : Element :=
  {| computedStyle := {[ "marginTop" := "-5px" ]}%string;
     offsetWidth := numZ 100;
     offsetHeight := numZ 50 |}.


(** An element without border or padding, and a snapshot made by the
    constructor without argument and extended by its caller. *)
Definition plain_element : Element :=
  {| computedStyle := ∅; offsetWidth := numZ 100; offsetHeight := numZ 50 |}.

Definition extended_snapshot : obj :=
  <["note" := VStr "kept"]> (<["width" := VNum (numZ 3)]> ∅).

Definition example_store : heap := {[ 7%positive := extended_snapshot ]}.

(** A snapshot extended with a property that holds [undefined], and
    one extended with a property of that kind under a name that every
    object inherits. *)
Definition sparse_snapshot : obj :=
  <["extra" := VUndef]> (<["width" := VNum (numZ 3)]> ∅).

Definition shadowing_snapshot : obj :=
  <["constructor" := VUndef]> (<["width" := VNum (numZ 3)]> ∅).

Definition sparse_store : heap :=
  {[ 7%positive := sparse_snapshot; 8%positive := shadowing_snapshot ]}.

(** The properties a Metrics object inherits in the examples: the
    method of the module, the constructor, and two methods of every
    object; a loop over the properties visits [clone] alone. *)
Definition Metrics_prototype : gmap string string :=
  list_to_map
    ([("clone", "Metrics.prototype.clone");
      ("constructor", "Metrics");
      ("toString", "Object.prototype.toString");
      ("hasOwnProperty", "Object.prototype.hasOwnProperty")]%string).

Definition Metrics_enumerable : list string := ["clone"]%string.

(** A runtime to run closed examples with.  No example brings a string
    or an object to an arithmetic operator, so its conversions are
    never called. *)
Definition example_runtime : Runtime :=
  {| StringToNumber := fun _ => NaN;
     NumberToString := fun _ => "NaN";
     ObjectToString := fun _ => "[object Object]" |}.

(** *** Further vocabulary *)

(** The characters a pixel string is made of. *)
Definition pixel_char (c : ascii) : bool :=
  is_digit c ||
  Ascii.eqb c "-" || Ascii.eqb c "p" || Ascii.eqb c "P" ||
  Ascii.eqb c "x" || Ascii.eqb c "X".

(** The numbers of the object literal [{width, height, maxW, maxH}]. *)
Definition size_numbers (w h mw mh : number) : gmap string number :=
  <["width" := w]> (<["height" := h]>
  (<["maxW" := mw]> (<["maxH" := mh]> ∅))).

(** The properties the constructor defines on a snapshot. *)
Definition snapshot_keys : list string :=
  ["display"; "position";
   "marginTop"; "marginBottom"; "marginLeft"; "marginRight";
   "marginHeight"; "marginWidth";
   "borderTop"; "borderBottom"; "borderLeft"; "borderRight";
   "paddingTop"; "paddingBottom"; "paddingLeft"; "paddingRight";
   "bpTop"; "bpBottom"; "bpHeight"; "bpLeft"; "bpRight"; "bpWidth";
   "outerW"; "outerH"; "width"; "height";
   "minW"; "minH"; "maxW"; "maxH"; "lineHeight"]%string.

(** A runtime that prints whole numbers in decimal, with a minus sign
    for the negative ones, as the language does; the examples ask it
    for nothing else. *)
Definition print_number (n : number) : string :=
  match n with
  | NaN => "NaN"
  | PInf => "Infinity"
  | NInf => "-Infinity"
  | Fin q =>
      if (Qden q =? 1)%positive
      then NilZero.string_of_int (Z.to_int (Qnum q))
      else "NaN"
  end.

Definition decimal_runtime : Runtime :=
  {| StringToNumber := fun _ => NaN;
     NumberToString := print_number;
     ObjectToString := fun _ => "[object Object]" |}.

(** An element as the legacy conversion sees it, and a host that
    measures nothing. *)
Definition legacy_element : LegacyElement :=
  {| style_left := VStr "auto";
     runtimeStyle_left := VStr "";
     currentStyle_left := VStr "4px" |}.

Definition no_pixelLeft : LegacyElement -> value := fun _ => VNum (numZ 0).

(* ================================================================== *)
(** * Properties *)
(* ================================================================== *)

(** Closes a decidable goal without variables by evaluating it. *)
Ltac by_evaluation := apply (bool_decide_unpack _); by vm_compute.

(** ** Numbers *)

Lemma Qc_eqb_eq (x y : Qc) : Qc_eqb x y = true <-> x = y.
Proof.
  unfold Qc_eqb. rewrite Qeq_bool_iff. split.
  - apply Qc_is_canon.
  - intros ->. reflexivity.
Qed.

Lemma Qc_eqb_neq (x y : Qc) : Qc_eqb x y = false <-> x <> y.
Proof.
  rewrite <- Qc_eqb_eq. destruct (Qc_eqb x y); split; congruence.
Qed.

Lemma Qc_leb_le (x y : Qc) : Qc_leb x y = true <-> (x <= y)%Qc.
Proof. unfold Qc_leb, Qcle. apply Qle_bool_iff. Qed.

Lemma num_leb_le (a b : number) : num_leb a b = true <-> num_le a b.
Proof.
  destruct a, b; simpl; try apply Qc_leb_le; split; intros; try done.
Qed.

Lemma Qc_of_Z_inj (x y : Z) : Qc_of_Z x = Qc_of_Z y -> x = y.
Proof. intros E. apply (f_equal this) in E. simpl in E. by injection E. Qed.

Lemma numZ_inj (x y : Z) : numZ x = numZ y -> x = y.
Proof. unfold numZ. intros E. apply Qc_of_Z_inj. congruence. Qed.

(** ** Rounding to a double *)

Lemma round_half_even_nonneg (n d : Z) :
  0 <= n -> 0 < d -> 0 <= round_half_even n d.
Proof.
  intros Hn Hd. unfold round_half_even.
  assert (0 <= n / d) by (apply Z.div_pos; lia).
  destruct (2 * (n mod d) ?= d); [destruct (Z.even (n / d))|..]; lia.
Qed.

Lemma round_half_even_multiple (x d : Z) :
  0 < d -> round_half_even (x * d) d = x.
Proof.
  intros Hd. unfold round_half_even.
  rewrite Z.mod_mul, Z.div_mul by lia.
  change (2 * 0) with 0. by destruct (Z.compare_spec 0 d); try lia.
Qed.

Lemma round_positive_nonneg (n d : Z) :
  0 < n -> 0 < d -> (0 <= round_positive n d)%Q.
Proof.
  intros Hn Hd. unfold round_positive.
  set (e := Z.max _ _). destruct (0 <=? e) eqn:He.
  - apply Z.leb_le in He.
    assert (0 < 2 ^ e) by (apply Z.pow_pos_nonneg; lia).
    pose proof (round_half_even_nonneg n (d * 2 ^ e)).
    unfold Qle, inject_Z. simpl. nia.
  - apply Z.leb_gt in He.
    assert (0 < 2 ^ (- e)) by (apply Z.pow_pos_nonneg; lia).
    pose proof (round_half_even_nonneg (n * 2 ^ (- e)) d).
    unfold Qle. simpl. nia.
Qed.

Lemma log2_floor_whole (n : Z) : 0 < n -> log2_floor n 1 = Z.log2 n.
Proof.
  intros Hn. unfold log2_floor, pow2_leb. change (Z.log2 1) with 0.
  rewrite Z.sub_0_r.
  pose proof (Z.log2_nonneg n) as H0.
  pose proof (Z.log2_spec n Hn) as [H1 _].
  destruct (Z.leb_spec 0 (Z.log2 n)); [|lia].
  by destruct (Z.leb_spec (1 * 2 ^ Z.log2 n) n); [|lia].
Qed.

(** A whole number of at most 53 bits, and [2^53] itself, round to
    themselves. *)
Lemma round_positive_whole (n : Z) :
  0 < n -> n <= 2 ^ 53 -> (round_positive n 1 == inject_Z n)%Q.
Proof.
  intros Hn Hb. unfold round_positive. rewrite log2_floor_whole by done.
  pose proof (Z.log2_nonneg n) as H0.
  pose proof (Z.log2_spec n Hn) as [H1 H2].
  assert (Z.log2 n <= 53) as Hk.
  { destruct (Z.le_gt_cases (Z.log2 n) 53) as [|Hgt]; [done|].
    assert (2 ^ 54 <= 2 ^ Z.log2 n) by (apply Z.pow_le_mono_r; lia). lia. }
  assert (Z.log2 n = 53 \/ Z.log2 n = 52 \/ Z.log2 n < 52)
    as [Hl|[Hl|Hl]] by lia.
  - rewrite Hl in *. change (Z.max (53 - 52) (-1074)) with 1.
    cbn [Z.leb Z.compare].
    assert (n = 2 ^ 52 * (1 * 2 ^ 1)) as -> by lia.
    rewrite round_half_even_multiple by lia. unfold Qeq. simpl. lia.
  - rewrite Hl. change (Z.max (52 - 52) (-1074)) with 0.
    cbn [Z.leb Z.compare]. change (1 * 2 ^ 0) with 1.
    rewrite <- (Z.mul_1_r n) at 1.
    rewrite round_half_even_multiple by lia. unfold Qeq. simpl. lia.
  - set (e := Z.max _ _). assert (e < 0) as He by lia.
    destruct (Z.leb_spec 0 e); [lia|].
    assert (0 < 2 ^ (- e)) by (apply Z.pow_pos_nonneg; lia).
    rewrite <- (Z.mul_1_r (n * 2 ^ (- e))).
    rewrite round_half_even_multiple by lia.
    unfold Qeq. simpl. rewrite Z2Pos.id by done. lia.
Qed.

Lemma Qle_bool_false (a b : Q) : (b < a)%Q -> Qle_bool a b = false.
Proof.
  intros Hlt. destruct (Qle_bool a b) eqn:E; [|done].
  apply Qle_bool_iff in E. by apply Qlt_not_le in Hlt.
Qed.

Lemma to_double_not_NaN (q : Qc) : to_double q <> NaN.
Proof.
  unfold to_double.
  destruct (Qnum q); [done|..]; by destruct (Qle_bool _ _).
Qed.

(** Rounding leaves the integers up to [2^53] as they are. *)
Lemma to_double_whole (z : Z) :
  exact_integer z -> to_double (Qc_of_Z z) = numZ z.
Proof.
  unfold exact_integer. intros Hb. unfold to_double, numZ.
  destruct z as [|n|n]; [done|..]; cbn [Qc_of_Z this inject_Z Qnum Qden].
  - pose proof (round_positive_whole (Z.pos n) eq_refl Hb) as E.
    rewrite Qle_bool_false.
    + f_equal. apply Qc_is_canon. simpl. by rewrite !Qred_correct.
    + rewrite E. unfold double_limit, Qlt. simpl.
      assert (2 ^ 53 < 2 ^ 1024) by (apply Z.pow_lt_mono_r; lia). lia.
  - pose proof (round_positive_whole (Z.pos n) eq_refl Hb) as E.
    rewrite Qle_bool_false.
    + f_equal. apply Qc_is_canon. simpl. rewrite !Qred_correct. by rewrite E.
    + rewrite E. unfold double_limit, Qlt. simpl.
      assert (2 ^ 53 < 2 ^ 1024) by (apply Z.pow_lt_mono_r; lia). lia.
Qed.

(** Rounding keeps the sign. *)
Lemma to_double_nonneg (z : Z) :
  0 <= z -> num_le (numZ 0) (to_double (Qc_of_Z z)).
Proof.
  intros Hz. unfold to_double.
  destruct z as [|n|n]; [| |lia]; cbn [Qc_of_Z this inject_Z Qnum Qden].
  - apply Qcle_refl.
  - destruct (Qle_bool _ _); [done|]. unfold num_le, numZ, Qcle. simpl.
    rewrite Qred_correct. by apply round_positive_nonneg.
Qed.

Lemma get_of_numbers (m : gmap string number) (k : string) :
  get (of_numbers m) k = fld (m !! k).
Proof.
  unfold get, of_numbers. rewrite lookup_fmap. by destruct (m !! k).
Qed.

(** ** inSizeRange *)

Section InSizeRange.
Context `{Runtime}.

Lemma js_ge_fld (x lo : option number) :
  js_ge (fld x) (fld lo) = true <-> at_least x lo.
Proof.
  destruct x as [a|], lo as [b|]; simpl; unfold num_geb.
  - apply num_leb_le.
  - done.
  - by destruct b.
  - done.
Qed.

Lemma js_le_fld (x hi : option number) :
  js_le (fld x) (fld hi) = true <-> at_most x hi.
Proof.
  destruct x as [a|], hi as [b|]; simpl.
  - apply num_leb_le.
  - by destruct a.
  - done.
  - done.
Qed.

Lemma falsy_fld (m : option number) :
  to_boolean (fld m) = false <-> unset_or_zero m.
Proof.
  unfold unset_or_zero, numZ. destruct m as [[| | |q]|]; simpl;
    rewrite ?negb_false_iff, ?Qc_eqb_eq; intuition congruence.
Qed.

(** C1. [inSizeRange] answers [false] when the range is absent,
    whatever the size.  For a range and a size made of numbers it
    answers [true] exactly when the width is at least [minW], the
    height at least [minH], and each maximum is either unset or zero
    or not exceeded; every comparison is inclusive, and a missing
    bound on either side of a comparison makes it fail. *)
Theorem inSizeRange_spec :
  (forall size : obj, inSizeRange None size = false) /\
  (forall range size : gmap string number,
     inSizeRange (Some (of_numbers range)) (of_numbers size) = true <->
     at_least (size !! "w") (range !! "minW") /\
     at_least (size !! "h") (range !! "minH") /\
     (unset_or_zero (range !! "maxW") \/
      at_most (size !! "w") (range !! "maxW")) /\
     (unset_or_zero (range !! "maxH") \/
      at_most (size !! "h") (range !! "maxH"))).
Proof.
  split; [done|]. intros range size. unfold inSizeRange.
  rewrite !get_of_numbers, !andb_true_iff, !orb_true_iff,
    !negb_true_iff, !js_ge_fld, !js_le_fld, !falsy_fld.
  tauto.
Qed.
End InSizeRange.

(** ** mergeSizeRange *)

Lemma num_le_refl (a : number) : a <> NaN -> num_le a a.
Proof. destruct a; simpl; try done; intros _; apply Qcle_refl. Qed.

Lemma num_leb_false (a b : number) :
  a <> NaN -> b <> NaN -> num_leb a b = false -> num_le b a.
Proof.
  destruct a, b; simpl; try done. intros _ _ Hle.
  destruct (Qclt_le_dec q0 q) as [Hlt|Hge].
  - by apply Qclt_le_weak.
  - apply Qc_leb_le in Hge. congruence.
Qed.

Lemma num_max_larger (x y : number) :
  x <> NaN -> y <> NaN -> larger_of x y (num_max x y).
Proof.
  intros Hx Hy. unfold larger_of.
  assert (num_max x y = if num_leb x y then y else x) as ->
    by (by destruct x, y).
  destruct (num_leb x y) eqn:E.
  - apply num_leb_le in E. auto using num_le_refl.
  - apply num_leb_false in E; auto using num_le_refl.
Qed.

Lemma num_min_smaller (x y : number) :
  x <> NaN -> y <> NaN -> smaller_of x y (num_min x y).
Proof.
  intros Hx Hy. unfold smaller_of.
  assert (num_min x y = if num_leb x y then x else y) as ->
    by (by destruct x, y).
  destruct (num_leb x y) eqn:E.
  - apply num_leb_le in E. auto using num_le_refl.
  - apply num_leb_false in E; auto using num_le_refl.
Qed.

Lemma Qc_of_Z_0 : Qc_of_Z 0 = 0%Qc.
Proof. by apply Qc_is_canon. Qed.

Lemma num_add_0_r (n : number) : num_add n (numZ 0) = n.
Proof. by destruct n. Qed.

Lemma nonzero_not_NaN (m : option number) : nonzero m <> Some NaN.
Proof. destruct m as [[| | |q]|]; simpl; try done. by case_decide. Qed.

Lemma min_of_not_NaN (m : option number) : min_of m <> NaN.
Proof.
  unfold min_of, numZ. pose proof (nonzero_not_NaN m).
  destruct (nonzero m) as [[]|]; simpl; congruence.
Qed.

Lemma max_of_not_NaN (m : option number) : max_of m <> NaN.
Proof.
  unfold max_of. pose proof (nonzero_not_NaN m).
  destruct (nonzero m) as [[]|]; simpl; congruence.
Qed.

Lemma truthy_fld (m : option number) :
  to_boolean (fld m) = bool_decide (is_Some (nonzero m)).
Proof.
  destruct m as [[| | |q]|]; simpl; try done.
  case_decide as Hq.
  - apply Qc_eqb_eq in Hq. by rewrite Hq.
  - apply Qc_eqb_neq in Hq. by rewrite Hq.
Qed.

Lemma nonzero_Some (m : option number) (n : number) :
  nonzero m = Some n -> m = Some n.
Proof.
  destruct m as [[| | |q]|]; simpl; try done. by case_decide.
Qed.

(** What [min_of] and [max_of] make of a property. *)
Lemma min_of_cases (m : option number) :
  match m with
  | None | Some NaN => min_of m = numZ 0
  | Some n => min_of m = n
  end.
Proof.
  destruct m as [[| | |q]|]; try reflexivity.
  unfold min_of. simpl. case_decide; [by subst|done].
Qed.

Lemma max_of_cases (m : option number) :
  match m with
  | None | Some NaN => max_of m = PInf
  | Some (Fin q) =>
      (q = Qc_of_Z 0 -> max_of m = PInf) /\ (q <> Qc_of_Z 0 -> max_of m = Fin q)
  | Some n => max_of m = n
  end.
Proof.
  destruct m as [[| | |q]|]; try reflexivity.
  unfold max_of. simpl. by case_decide.
Qed.

Lemma or_zero_fld (m : option number) :
  js_or (fld m) (VNum (numZ 0)) = VNum (min_of m).
Proof.
  unfold js_or, min_of. rewrite truthy_fld.
  destruct (nonzero m) as [n|] eqn:E; simpl.
  - apply nonzero_Some in E. by subst.
  - done.
Qed.

Lemma or_infinity_fld (m : option number) :
  js_or (fld m) (VNum PInf) = VNum (max_of m).
Proof.
  unfold js_or, max_of. rewrite truthy_fld.
  destruct (nonzero m) as [n|] eqn:E; simpl.
  - apply nonzero_Some in E. by subst.
  - done.
Qed.

Section MergeSizeRange.
Context `{Runtime}.

Lemma add_fld (m : option number) (fp : number) :
  js_add (fld m) (VNum fp) = fld (Some (num_add (default NaN m) fp)).
Proof. by destruct m. Qed.

Lemma fld_NaN_or (d : value) (n : number) (m : option number) :
  js_or (fld (Some (num_add (default NaN m) n))) d =
  js_or (fld (plus_footprint m n)) d.
Proof. by destruct m. Qed.

Lemma get_num_at (o : obj) (k : string) :
  number_or_absent o k -> get o k = fld (num_at o k).
Proof.
  unfold number_or_absent, get, num_at. by destruct (o !! k) as [[]|].
Qed.

Lemma bpWidth_of_objects (b : obj) :
  number_or_absent b "bpWidth" -> number_or_absent b "outerWidth" ->
  number_or_absent b "width" ->
  bpWidth_of b true =
  VNum (footprint (num_at b "bpWidth") (num_at b "outerWidth")
          (num_at b "width")).
Proof.
  intros Hbp Ho Hw. unfold bpWidth_of, footprint, js_or.
  rewrite !get_num_at, !truthy_fld by done.
  destruct (nonzero (num_at b "bpWidth")) as [x|] eqn:E; simpl.
  - apply nonzero_Some in E. by rewrite E.
  - destruct (nonzero (num_at b "outerWidth")) as [o|] eqn:E'; simpl; [|done].
    apply nonzero_Some in E'. rewrite E'. unfold js_sub. simpl.
    by destruct (num_at b "width").
Qed.

Lemma bpHeight_of_objects (b : obj) :
  number_or_absent b "bpHeight" -> number_or_absent b "outerHeight" ->
  number_or_absent b "height" ->
  bpHeight_of b true =
  VNum (footprint (num_at b "bpHeight") (num_at b "outerHeight")
          (num_at b "height")).
Proof.
  intros Hbp Ho Hh. unfold bpHeight_of, footprint, js_or.
  rewrite !get_num_at, !truthy_fld by done.
  destruct (nonzero (num_at b "bpHeight")) as [x|] eqn:E; simpl.
  - apply nonzero_Some in E. by rewrite E.
  - destruct (nonzero (num_at b "outerHeight")) as [o|] eqn:E'; simpl; [|done].
    apply nonzero_Some in E'. rewrite E'. unfold js_sub. simpl.
    by destruct (num_at b "height").
Qed.

(** The merge on any two objects whose four properties are numbers or
    absent, for a footprint already known. *)
Lemma merge_objects (a b : obj) (fw fh : number) :
  Forall (fun k => number_or_absent a k /\ number_or_absent b k) range_keys ->
  <["width" := Math_max (js_or (get a "width") (VNum (numZ 0)))
                 (js_or (js_add (get b "width") (VNum fw))
                        (VNum (numZ 0)))]>
  (<["height" := Math_max (js_or (get a "height") (VNum (numZ 0)))
                   (js_or (js_add (get b "height") (VNum fh))
                          (VNum (numZ 0)))]>
  (<["maxW" := Math_min (js_or (get a "maxW") (VNum PInf))
                 (js_or (js_add (get b "maxW") (VNum fw))
                        (VNum PInf))]>
  (<["maxH" := Math_min (js_or (get a "maxH") (VNum PInf))
                 (js_or (js_add (get b "maxH") (VNum fh))
                        (VNum PInf))]> ∅))) =
  size_range
    (num_max (min_of (num_at a "width"))
             (min_of (plus_footprint (num_at b "width") fw)))
    (num_max (min_of (num_at a "height"))
             (min_of (plus_footprint (num_at b "height") fh)))
    (num_min (max_of (num_at a "maxW"))
             (max_of (plus_footprint (num_at b "maxW") fw)))
    (num_min (max_of (num_at a "maxH"))
             (max_of (plus_footprint (num_at b "maxH") fh))).
Proof.
  intros HF. unfold range_keys in HF.
  apply Forall_cons in HF as [[Haw Hbw] HF].
  apply Forall_cons in HF as [[Hah Hbh] HF].
  apply Forall_cons in HF as [[Hamw Hbmw] HF].
  apply Forall_cons in HF as [[Hamh Hbmh] _].
  rewrite !get_num_at by done.
  rewrite !add_fld, !fld_NaN_or, !or_zero_fld, !or_infinity_fld.
  reflexivity.
Qed.

(** The merge on objects of numbers, for a footprint already known. *)
Lemma merge_fields (a b : gmap string number) (fw fh : number) :
  <["width" := Math_max (js_or (get (of_numbers a) "width") (VNum (numZ 0)))
                 (js_or (js_add (get (of_numbers b) "width") (VNum fw))
                        (VNum (numZ 0)))]>
  (<["height" := Math_max (js_or (get (of_numbers a) "height") (VNum (numZ 0)))
                   (js_or (js_add (get (of_numbers b) "height") (VNum fh))
                          (VNum (numZ 0)))]>
  (<["maxW" := Math_min (js_or (get (of_numbers a) "maxW") (VNum PInf))
                 (js_or (js_add (get (of_numbers b) "maxW") (VNum fw))
                        (VNum PInf))]>
  (<["maxH" := Math_min (js_or (get (of_numbers a) "maxH") (VNum PInf))
                 (js_or (js_add (get (of_numbers b) "maxH") (VNum fh))
                        (VNum PInf))]> ∅))) =
  size_range
    (num_max (min_of (a !! "width"))
             (min_of (plus_footprint (b !! "width") fw)))
    (num_max (min_of (a !! "height"))
             (min_of (plus_footprint (b !! "height") fh)))
    (num_min (max_of (a !! "maxW"))
             (max_of (plus_footprint (b !! "maxW") fw)))
    (num_min (max_of (a !! "maxH"))
             (max_of (plus_footprint (b !! "maxH") fh))).
Proof.
  rewrite !get_of_numbers, !add_fld, !fld_NaN_or, !or_zero_fld,
    !or_infinity_fld.
  reflexivity.
Qed.

Lemma default_of_numbers (a : option (gmap string number)) :
  default ∅ (of_numbers <$> a) = of_numbers (default ∅ a).
Proof. destruct a; simpl; [done|]. unfold of_numbers. by rewrite fmap_empty. Qed.

Lemma plus_footprint_0 (m : option number) :
  plus_footprint m (numZ 0) = m.
Proof. destruct m; simpl; [|done]. by rewrite num_add_0_r. Qed.

(** C2, as amended.  Without [outer], the merge of any two objects
    whose [width], [height], [maxW] and [maxH] are numbers or absent,
    either of which may itself be absent and then counts as empty, has
    for width and height the larger of the two widths and heights, 0
    standing for one that is absent or not a number, and for [maxW]
    and [maxH] the smaller of the two maximums, +∞ standing for one
    that is absent, not a number or zero.  Two absent inputs give
    [{width: 0, height: 0, maxW: Infinity, maxH: Infinity}]. *)
Theorem mergeSizeRange_inner (a b : option obj) :
  let A := default ∅ a in
  let B := default ∅ b in
  Forall (fun k => number_or_absent A k /\ number_or_absent B k) range_keys ->
  let w := num_max (min_of (num_at A "width")) (min_of (num_at B "width")) in
  let h := num_max (min_of (num_at A "height")) (min_of (num_at B "height")) in
  let mw := num_min (max_of (num_at A "maxW")) (max_of (num_at B "maxW")) in
  let mh := num_min (max_of (num_at A "maxH")) (max_of (num_at B "maxH")) in
  mergeSizeRange a b false = size_range w h mw mh /\
  larger_of (min_of (num_at A "width")) (min_of (num_at B "width")) w /\
  larger_of (min_of (num_at A "height")) (min_of (num_at B "height")) h /\
  smaller_of (max_of (num_at A "maxW")) (max_of (num_at B "maxW")) mw /\
  smaller_of (max_of (num_at A "maxH")) (max_of (num_at B "maxH")) mh /\
  mergeSizeRange None None false = size_range (numZ 0) (numZ 0) PInf PInf.
Proof.
  intros A B HF w h mw mh.
  split; [|split; [|split; [|split; [|split]]]].
  - unfold mergeSizeRange, bpWidth_of, bpHeight_of. fold A B. cbv zeta iota.
    rewrite (merge_objects A B) by done. by rewrite !plus_footprint_0.
  - apply num_max_larger; apply min_of_not_NaN.
  - apply num_max_larger; apply min_of_not_NaN.
  - apply num_min_smaller; apply max_of_not_NaN.
  - apply num_min_smaller; apply max_of_not_NaN.
  - reflexivity.
Qed.

(** C3, as amended.  With [outer], for any two objects whose properties
    read by the merge are numbers or absent, the footprint of the
    metrics along each axis is its [bpWidth] (or [bpHeight]) when that
    is set and not zero, else its [outerWidth - width] (or
    [outerHeight - height]) when the outer size is set and not zero,
    else 0; it is added to the width and height of the metrics and to
    its [maxW] and [maxH] before the larger, respectively the smaller,
    is taken.  A metrics object with neither aggregate nor outer size
    adds nothing.  In the worked example the result has width 120 and
    [maxW] 220. *)
Theorem mergeSizeRange_outer (a b : option obj) :
  let A := default ∅ a in
  let B := default ∅ b in
  Forall (fun k => number_or_absent A k /\ number_or_absent B k) range_keys ->
  Forall (number_or_absent B) footprint_keys ->
  let fw :=
    footprint (num_at B "bpWidth") (num_at B "outerWidth")
      (num_at B "width") in
  let fh :=
    footprint (num_at B "bpHeight") (num_at B "outerHeight")
      (num_at B "height") in
  mergeSizeRange a b true =
    size_range
      (num_max (min_of (num_at A "width"))
               (min_of (plus_footprint (num_at B "width") fw)))
      (num_max (min_of (num_at A "height"))
               (min_of (plus_footprint (num_at B "height") fh)))
      (num_min (max_of (num_at A "maxW"))
               (max_of (plus_footprint (num_at B "maxW") fw)))
      (num_min (max_of (num_at A "maxH"))
               (max_of (plus_footprint (num_at B "maxH") fh))) /\
  (forall inner : option number, footprint None None inner = numZ 0) /\
  footprint (metrics_100_20 !! "bpWidth") (metrics_100_20 !! "outerWidth")
    (metrics_100_20 !! "width") = numZ 20 /\
  get (mergeSizeRange (Some (of_numbers range_50_300))
         (Some (of_numbers metrics_100_20)) true) "width" =
    VNum (numZ 120) /\
  get (mergeSizeRange (Some (of_numbers range_50_300))
         (Some (of_numbers metrics_100_20)) true) "maxW" =
    VNum (numZ 220).
Proof.
  intros A B HF HB fw fh.
  split; [|split; [|split; [|split]]].
  - pose proof HF as HF'. unfold range_keys in HF'.
    apply Forall_cons in HF' as [[_ Hbw] HF'].
    apply Forall_cons in HF' as [[_ Hbh] _].
    unfold footprint_keys in HB.
    apply Forall_cons in HB as [Hbpw HB].
    apply Forall_cons in HB as [Hbph HB].
    apply Forall_cons in HB as [How HB].
    apply Forall_cons in HB as [Hoh _].
    unfold mergeSizeRange. fold A B. cbv zeta.
    rewrite bpWidth_of_objects, bpHeight_of_objects by done.
    by apply merge_objects.
  - reflexivity.
  - reflexivity.
  - by_evaluation.
  - by_evaluation.
Qed.
End MergeSizeRange.

(** ** toPixels *)

Lemma digit_val_char (d : nat) :
  (d < 10)%nat -> digit_val (digit_char d) = Some (Z.of_nat d).
Proof.
  intros Hd. do 10 (destruct d as [|d]; [reflexivity|]). lia.
Qed.

Lemma digit_val_inv (c : ascii) (z : Z) :
  digit_val c = Some z ->
  exists d, (d < 10)%nat /\ c = digit_char d /\ z = Z.of_nat d.
Proof.
  destruct c as [[] [] [] [] [] [] [] []]; intros E; vm_compute in E;
    try discriminate E; injection E as <-;
    first [ by exists 0%nat; repeat split; lia
          | by exists 1%nat; repeat split; lia
          | by exists 2%nat; repeat split; lia
          | by exists 3%nat; repeat split; lia
          | by exists 4%nat; repeat split; lia
          | by exists 5%nat; repeat split; lia
          | by exists 6%nat; repeat split; lia
          | by exists 7%nat; repeat split; lia
          | by exists 8%nat; repeat split; lia
          | by exists 9%nat; repeat split; lia ].
Qed.

Lemma read_digits_numeral (ds : list nat) (t : string) (acc : Z) :
  Forall (fun d => (d < 10)%nat) ds -> no_digit_ahead t ->
  read_digits acc (numeral ds ++ t)%string =
  (fold_left (fun acc d => 10 * acc + Z.of_nat d) ds acc, t).
Proof.
  intros Hds Ht. revert acc. induction Hds as [|d ds Hd _ IH]; intros acc.
  - simpl. destruct t as [|c t]; simpl in *; [done|]. by rewrite Ht.
  - change (numeral (d :: ds) ++ t)%string
      with (String (digit_char d) (numeral ds ++ t)).
    cbn [read_digits]. rewrite digit_val_char by done. apply IH.
Qed.

Lemma read_digits_split (s : string) (acc : Z) :
  exists ds, Forall (fun d => (d < 10)%nat) ds /\
    s = (numeral ds ++ snd (read_digits acc s))%string /\
    no_digit_ahead (snd (read_digits acc s)).
Proof.
  revert acc. induction s as [|c s IH]; intros acc.
  - exists []. by repeat split.
  - cbn [read_digits]. destruct (digit_val c) as [z|] eqn:E.
    + destruct (digit_val_inv _ _ E) as (d & Hd & -> & ->).
      destruct (IH (10 * acc + Z.of_nat d)) as (ds & Hds & Hs & Hn).
      exists (d :: ds). repeat split; [by constructor| |done].
      change (numeral (d :: ds) ++ ?t)%string
        with (String (digit_char d) (numeral ds ++ t)).
      by rewrite <- Hs.
    + exists []. by repeat split.
Qed.

Lemma px_suffix_test_true (t : string) : px_suffix t -> px_suffix_test t = true.
Proof.
  unfold px_suffix. simpl. intros [<-|[<-|[<-|[<-|[<-|[]]]]]]; reflexivity.
Qed.

Lemma px_suffix_no_digit (t : string) : px_suffix t -> no_digit_ahead t.
Proof.
  unfold px_suffix. simpl. intros [<-|[<-|[<-|[<-|[<-|[]]]]]]; reflexivity.
Qed.

Lemma px_suffix_test_inv (t : string) : px_suffix_test t = true -> px_suffix t.
Proof.
  unfold px_suffix. destruct t as [|p [|x [|? ?]]]; simpl; try done; auto.
  rewrite andb_true_iff, !orb_true_iff, !Ascii.eqb_eq.
  intros [[->| ->] [->| ->]]; auto 6.
Qed.

Lemma numeral_cons (d : nat) (ds : list nat) (t : string) :
  (numeral (d :: ds) ++ t)%string = String (digit_char d) (numeral ds ++ t).
Proof. reflexivity. Qed.

Lemma pixel_test_literal (neg : bool) (ds : list nat) (t : string) :
  is_numeral ds -> px_suffix t ->
  pixel_test (pixel_literal neg ds t) = true /\
  parseFloat (pixel_literal neg ds t) = literal_value neg ds /\
  String.eqb (pixel_literal neg ds t) "" = false.
Proof.
  intros [Hne Hds] Ht. destruct ds as [|d ds]; [done|].
  pose proof (read_digits_numeral (d :: ds) t 0 Hds (px_suffix_no_digit _ Ht))
    as Hread.
  inversion Hds as [|? ? Hd _]; subst.
  unfold pixel_literal, literal_value, literal_integer, numeral_value.
  destruct neg.
  - change ("-" ++ numeral (d :: ds) ++ t)%string
      with (String "-"%char (numeral (d :: ds) ++ t)).
    unfold pixel_test, parseFloat. cbv iota beta.
    rewrite numeral_cons in *. unfold is_digit.
    rewrite digit_val_char by done. rewrite Hread. simpl.
    by rewrite px_suffix_test_true.
  - change ("" ++ numeral (d :: ds) ++ t)%string
      with (numeral (d :: ds) ++ t)%string.
    rewrite numeral_cons in *.
    assert (pixel_test (String (digit_char d) (numeral ds ++ t)) =
            is_digit (digit_char d) &&
            px_suffix_test
              (snd (read_digits 0 (String (digit_char d) (numeral ds ++ t)))))
      as -> by (do 10 (destruct d as [|d]; [reflexivity|]); lia).
    assert (parseFloat (String (digit_char d) (numeral ds ++ t)) =
            if is_digit (digit_char d)
            then to_double
                   (Qc_of_Z (fst (read_digits 0
                              (String (digit_char d) (numeral ds ++ t)))))
            else NaN)
      as -> by (do 10 (destruct d as [|d]; [reflexivity|]); lia).
    unfold is_digit. rewrite digit_val_char by done. rewrite Hread. simpl.
    by rewrite px_suffix_test_true.
Qed.

Lemma pixel_test_inv (s : string) :
  pixel_test s = true -> is_pixel_literal s.
Proof.
  assert (forall r : string,
    match r with
    | String c _ => is_digit c && px_suffix_test (snd (read_digits 0 r))
    | EmptyString => false
    end = true ->
    exists ds t, is_numeral ds /\ px_suffix t /\ r = (numeral ds ++ t)%string)
    as Hbody.
  { intros [|c r]; [done|]. rewrite andb_true_iff. intros [Hc Hsuf].
    destruct (read_digits_split (String c r) 0) as (ds & Hds & Hs & Hn).
    exists ds, (snd (read_digits 0 (String c r))).
    split; [split; [|done]|split; [by apply px_suffix_test_inv|done]].
    intros ->. change (numeral [] ++ ?x)%string with x in Hs.
    rewrite <- Hs in Hn. unfold is_digit in Hc. simpl in Hn.
    by rewrite Hn in Hc. }
  unfold pixel_test. intros Hs.
  destruct s as [|c r]; [done|].
  destruct (decide (c = "-"%char)) as [->|Hc].
  - destruct (Hbody r Hs) as (ds & t & Hds & Ht & ->).
    by exists true, ds, t.
  - assert (match String c r with
            | String "-"%char r0 => r0
            | _ => String c r
            end = String c r) as E.
    { destruct c as [[] [] [] [] [] [] [] []]; done. }
    rewrite E in Hs.
    destruct (Hbody (String c r) Hs) as (ds & t & Hds & Ht & Hr).
    exists false, ds, t. by rewrite Hr.
Qed.

(** C4.  On a pixel literal (an optional minus sign, one or more
    digits, an optional [px] in either case) [toPixels] returns the
    number the literal parses to: the double nearest to the integer it
    denotes, which is that integer itself as long as it is within 2^53
    (the numeral 9007199254740993, one above 2^53, gives
    9007199254740992).  On every other string and on an absent value it
    returns [null].  It is a total function: no input makes it fail. *)
Theorem toPixels_spec (el : Element) :
  (forall (neg : bool) (ds : list nat) (t : string),
     is_numeral ds -> px_suffix t ->
     toPixels el (Some (pixel_literal neg ds t)) =
       VNum (literal_value neg ds) /\
     (exact_integer (literal_integer neg ds) ->
      toPixels el (Some (pixel_literal neg ds t)) =
        VNum (numZ (literal_integer neg ds)))) /\
  (forall s : string, ~ is_pixel_literal s -> toPixels el (Some s) = VNull) /\
  toPixels el None = VNull /\
  toPixels el (Some "9007199254740993px"%string) =
    VNum (numZ 9007199254740992).
Proof.
  split; [|split; [|split]].
  - intros neg ds t Hds Ht.
    destruct (pixel_test_literal neg ds t Hds Ht) as (Ht1 & Hv & Hne).
    assert (toPixels el (Some (pixel_literal neg ds t)) =
            VNum (literal_value neg ds)) as E
      by (unfold toPixels; by rewrite Hne, Ht1, Hv).
    split; [done|]. intros Hz. rewrite E. unfold literal_value.
    by rewrite to_double_whole.
  - intros s Hs. unfold toPixels.
    destruct (pixel_test s) eqn:E.
    + destruct Hs. by apply pixel_test_inv.
    + by rewrite andb_false_r.
  - reflexivity.
  - by_evaluation.
Qed.

(** ** roundUp *)

(** On whole numbers the remainder and the ceiling agree, and [roundUp]
    gives the next multiple of the base strictly above the number. *)
Lemma quot_Qeq (p q : Q) :
  (p == q)%Q -> Z.quot (Qnum p) (QDen p) = Z.quot (Qnum q) (QDen q).
Proof.
  unfold Qeq. intros E.
  rewrite <- (Z.quot_mul_cancel_r (Qnum p) (QDen p) (QDen q)) by done.
  rewrite <- (Z.quot_mul_cancel_r (Qnum q) (QDen q) (QDen p)) by done.
  rewrite E. f_equal. lia.
Qed.

Lemma Qc_trunc_div (n b : Z) :
  0 < b -> Qc_trunc (Qc_of_Z n / Qc_of_Z b)%Qc = Z.quot n b.
Proof.
  intros Hb. unfold Qc_trunc.
  change (Z.quot (Qnum (this (Qc_of_Z n / Qc_of_Z b)%Qc))
                 (QDen (this (Qc_of_Z n / Qc_of_Z b)%Qc)) = Z.quot n b).
  rewrite (quot_Qeq _ (n # Z.to_pos b)).
  - simpl. by rewrite Z2Pos.id.
  - unfold Qcdiv, Qcmult, Qcinv, Q2Qc. simpl. rewrite !Qred_correct.
    destruct b as [|b|b]; try lia. unfold Qeq. simpl. lia.
Qed.

Lemma Qc_of_Z_plus (x y : Z) : (Qc_of_Z x + Qc_of_Z y)%Qc = Qc_of_Z (x + y).
Proof.
  apply Qc_is_canon. unfold Qcplus, Q2Qc. simpl. rewrite !Qred_correct.
  unfold Qeq. simpl. lia.
Qed.

Lemma Qc_of_Z_opp (x : Z) : (- Qc_of_Z x)%Qc = Qc_of_Z (- x).
Proof.
  apply Qc_is_canon. unfold Qcopp, Q2Qc. simpl. rewrite !Qred_correct.
  unfold Qeq. simpl. lia.
Qed.

Lemma Qc_of_Z_rem (n b : Z) :
  (Qc_of_Z n - Qc_of_Z b * Qc_of_Z (Z.quot n b))%Qc = Qc_of_Z (Z.rem n b).
Proof.
  pose proof (Z.quot_rem' n b) as Hq.
  apply Qc_is_canon. unfold Qcminus, Qcplus, Qcopp, Qcmult, Q2Qc. simpl.
  rewrite !Qred_correct. unfold Qeq. simpl. lia.
Qed.

(** Sums and differences of whole numbers are exact as long as the
    result is within [2^53]. *)
Lemma num_add_numZ (x y : Z) :
  exact_integer (x + y) -> num_add (numZ x) (numZ y) = numZ (x + y).
Proof.
  intros Hb. unfold num_add, numZ.
  destruct (Qc_eqb (Qc_of_Z y) (Qc_of_Z 0)) eqn:Ey.
  { apply Qc_eqb_eq, Qc_of_Z_inj in Ey. subst. by rewrite Z.add_0_r. }
  destruct (Qc_eqb (Qc_of_Z x) (Qc_of_Z 0)) eqn:Ex.
  { apply Qc_eqb_eq, Qc_of_Z_inj in Ex. by subst. }
  rewrite Qc_of_Z_plus. by apply to_double_whole.
Qed.

Lemma num_sub_numZ (x y : Z) :
  exact_integer (x - y) -> num_sub (numZ x) (numZ y) = numZ (x - y).
Proof.
  intros Hb. unfold num_sub, num_opp, numZ at 2. rewrite Qc_of_Z_opp.
  by apply num_add_numZ.
Qed.

Lemma num_rem_numZ (n b : Z) :
  0 < b -> num_rem (numZ n) (numZ b) = numZ (Z.rem n b).
Proof.
  intros Hb. unfold num_rem, numZ.
  destruct (Qc_eqb (Qc_of_Z b) (Qc_of_Z 0)) eqn:E.
  { apply Qc_eqb_eq, Qc_of_Z_inj in E. lia. }
  by rewrite Qc_trunc_div, Qc_of_Z_rem.
Qed.

Lemma num_ceil_numZ (n : Z) : num_ceil (numZ n) = numZ n.
Proof. unfold num_ceil, numZ. simpl. by rewrite Qceiling_Z. Qed.

Lemma roundUp_integers (n b : Z) :
  0 < b -> Z.abs n <= 2 ^ 52 -> b <= 2 ^ 52 ->
  roundUp (numZ n) (numZ b) = numZ (b * (Z.quot n b + 1)).
Proof.
  intros Hb Hn Hb'. unfold roundUp.
  pose proof (Z.quot_rem' n b) as Hq.
  assert (Z.abs (Z.rem n b) < b) as Hr.
  { pose proof (Z.rem_bound_abs n b). lia. }
  assert (0 <= Z.rem n b * n) as Hs
    by (apply Z.rem_sign_mul; lia).
  change (2 ^ 52) with 4503599627370496 in *.
  rewrite num_ceil_numZ, num_rem_numZ by done.
  rewrite num_add_numZ, num_sub_numZ.
  - f_equal. lia.
  - unfold exact_integer. change (2 ^ 53) with 9007199254740992. nia.
  - unfold exact_integer. change (2 ^ 53) with 9007199254740992. lia.
Qed.

Lemma roundUp_integers_above (n b : Z) :
  0 < b -> Z.abs n <= 2 ^ 52 -> b <= 2 ^ 52 ->
  multiple_of (roundUp (numZ n) (numZ b)) (numZ b) /\
  n < b * (Z.quot n b + 1) /\
  (forall k : Z, n = k * b -> roundUp (numZ n) (numZ b) = numZ (n + b)).
Proof.
  intros Hb Hn Hb'. rewrite roundUp_integers by done. split; [|split].
  - simpl. exists (Z.quot n b + 1). apply Qc_is_canon.
    unfold Qcmult, Q2Qc. simpl. rewrite Qred_correct.
    unfold Qeq. simpl. lia.
  - pose proof (Z.quot_rem' n b) as Hq.
    destruct (Z_lt_le_dec n 0) as [Hlt|Hge].
    + pose proof (Z.rem_nonpos n b) as Hr. lia.
    + pose proof (Z.rem_bound_pos n b Hge Hb) as Hr. lia.
  - intros k ->. rewrite Z.quot_mul by lia. f_equal. lia.
Qed.

(** C5.  [roundUp] is [ceil(number) + base - number % base] by
    definition, and [roundUp(10, 10)] is 20.  The result is however not
    always a multiple of the base: the ceiling is taken of the number
    but the remainder is not, so [roundUp(7.5, 10)] is 10.5. *)
Theorem roundUp_fraction :
  (forall n base : number,
     roundUp n base = num_sub (num_add (num_ceil n) base) (num_rem n base)) /\
  roundUp (numZ 10) (numZ 10) = numZ 20 /\
  roundUp seven_and_a_half (numZ 10) = ten_and_a_half /\
  ~ multiple_of (roundUp seven_and_a_half (numZ 10)) (numZ 10).
Proof.
  assert (roundUp seven_and_a_half (numZ 10) = ten_and_a_half) as E
    by by_evaluation.
  split; [done|]. split; [|split; [done|]].
  - by_evaluation.
  - rewrite E. simpl. intros [k Hk].
    assert ((21 # 2) == inject_Z k * inject_Z 10)%Q as Hq.
    { apply (f_equal this) in Hk. simpl in Hk.
      rewrite <- (Qred_correct (inject_Z k * inject_Z 10)), <- Hk.
      reflexivity. }
    unfold Qeq in Hq. simpl in Hq. lia.
Qed.

(** ** Metrics *)

Lemma parseFloat_pixel (s : string) :
  pixel_test s = true ->
  exists neg ds t,
    is_numeral ds /\ px_suffix t /\ s = pixel_literal neg ds t /\
    parseFloat s = literal_value neg ds.
Proof.
  intros Hs. destruct (pixel_test_inv s Hs) as (neg & ds & t & Hds & Ht & ->).
  exists neg, ds, t. repeat split; try done; try apply Hds.
  by apply pixel_test_literal.
Qed.

Lemma parseFloat_not_NaN (s : string) :
  pixel_test s = true -> parseFloat s <> NaN.
Proof.
  intros Hs. destruct (parseFloat_pixel s Hs) as (neg & ds & t & _ & _ & _ & ->).
  apply to_double_not_NaN.
Qed.

Lemma or_zero_number (n : number) :
  n <> NaN -> js_or (VNum n) zero = VNum n.
Proof.
  intros Hn. unfold js_or, zero. destruct n as [| | |q]; try done. simpl.
  destruct (Qc_eqb _ _) eqn:E; simpl; [|done].
  apply Qc_eqb_eq in E. unfold numZ. by rewrite E.
Qed.

Lemma toPixels_parsed (el : Element) (val : option string) :
  js_or (toPixels el val) zero = VNum (parsed val).
Proof.
  unfold toPixels, parsed. destruct val as [s|]; [|done].
  destruct (pixel_test s) eqn:E.
  - assert (String.eqb s "" = false) as ->.
    { destruct s; [done|reflexivity]. }
    apply or_zero_number. by apply parseFloat_not_NaN.
  - by rewrite andb_false_r.
Qed.

Section MetricsBox.
Context `{Runtime}.

(** C6.  The snapshot of an element satisfies the box arithmetic:
    each side's [bp] is its border plus its padding, [bpWidth] and
    [bpHeight] add the two sides of an axis, and so do [marginWidth]
    and [marginHeight]; [outerW] and [outerH] are the rendered offset
    size, from which [width] and [height] subtract [bpWidth] and
    [bpHeight].  With margins of [10px], borders of [2px], paddings of
    [3px] and a rendered box of 100 by 50 this gives [bpWidth] 10,
    [bpHeight] 10, [width] 90, [height] 40, [marginWidth] 20 and
    [marginHeight] 20. *)
Theorem Metrics_box (el : Element) :
  let m := Metrics (Some el) in
  let px k := parsed (computedStyle el !! k) in
  let bpTop := num_add (px "borderTopWidth") (px "paddingTop") in
  let bpBottom := num_add (px "borderBottomWidth") (px "paddingBottom") in
  let bpLeft := num_add (px "borderLeftWidth") (px "paddingLeft") in
  let bpRight := num_add (px "borderRightWidth") (px "paddingRight") in
  let bpWidth := num_add bpLeft bpRight in
  let bpHeight := num_add bpTop bpBottom in
  (m !! "bpTop" = Some (VNum bpTop) /\
   m !! "bpBottom" = Some (VNum bpBottom) /\
   m !! "bpLeft" = Some (VNum bpLeft) /\
   m !! "bpRight" = Some (VNum bpRight) /\
   m !! "bpWidth" = Some (VNum bpWidth) /\
   m !! "bpHeight" = Some (VNum bpHeight)) /\
  (m !! "marginWidth" =
     Some (VNum (num_add (px "marginLeft") (px "marginRight"))) /\
   m !! "marginHeight" =
     Some (VNum (num_add (px "marginTop") (px "marginBottom")))) /\
  (m !! "outerW" = Some (VNum (offsetWidth el)) /\
   m !! "outerH" = Some (VNum (offsetHeight el)) /\
   m !! "width" = Some (VNum (num_sub (offsetWidth el) bpWidth)) /\
   m !! "height" = Some (VNum (num_sub (offsetHeight el) bpHeight))) /\
  (let b := Metrics (Some boxed_element) in
   b !! "bpWidth" = Some (VNum (numZ 10)) /\
   b !! "bpHeight" = Some (VNum (numZ 10)) /\
   b !! "width" = Some (VNum (numZ 90)) /\
   b !! "height" = Some (VNum (numZ 40)) /\
   b !! "marginWidth" = Some (VNum (numZ 20)) /\
   b !! "marginHeight" = Some (VNum (numZ 20))).
Proof.
  intros m px bpTop bpBottom bpLeft bpRight bpWidth bpHeight.
  set (raw k := px_or_zero el (getStyleObject el) k).
  assert (forall k, raw k = VNum (px k)) as Hraw
    by (intros k; apply toPixels_parsed).
  set (rawTop := js_add (raw "borderTopWidth") (raw "paddingTop")).
  set (rawBottom := js_add (raw "borderBottomWidth") (raw "paddingBottom")).
  set (rawLeft := js_add (raw "borderLeftWidth") (raw "paddingLeft")).
  set (rawRight := js_add (raw "borderRightWidth") (raw "paddingRight")).
  split; [|split; [|split]].
  - repeat split.
    + transitivity (Some rawTop); [reflexivity|].
      subst rawTop. by rewrite !Hraw.
    + transitivity (Some rawBottom); [reflexivity|].
      subst rawBottom. by rewrite !Hraw.
    + transitivity (Some rawLeft); [reflexivity|].
      subst rawLeft. by rewrite !Hraw.
    + transitivity (Some rawRight); [reflexivity|].
      subst rawRight. by rewrite !Hraw.
    + transitivity (Some (js_add rawLeft rawRight)); [reflexivity|].
      subst rawLeft rawRight. by rewrite !Hraw.
    + transitivity (Some (js_add rawTop rawBottom)); [reflexivity|].
      subst rawTop rawBottom. by rewrite !Hraw.
  - split.
    + transitivity (Some (js_add (raw "marginLeft") (raw "marginRight")));
        [reflexivity|]. by rewrite !Hraw.
    + transitivity (Some (js_add (raw "marginTop") (raw "marginBottom")));
        [reflexivity|]. by rewrite !Hraw.
  - repeat split.
    + transitivity
        (Some (js_sub (VNum (offsetWidth el)) (js_add rawLeft rawRight)));
        [reflexivity|]. subst rawLeft rawRight. by rewrite !Hraw.
    + transitivity
        (Some (js_sub (VNum (offsetHeight el)) (js_add rawTop rawBottom)));
        [reflexivity|]. subst rawTop rawBottom. by rewrite !Hraw.
  - cbv zeta.
    repeat split; by_evaluation.
Qed.
End MetricsBox.

Lemma fold_digits_nonneg (ds : list nat) (acc : Z) :
  0 <= acc -> 0 <= fold_left (fun acc d => 10 * acc + Z.of_nat d) ds acc.
Proof.
  revert acc. induction ds as [|d ds IH]; intros acc Hacc; simpl; [done|].
  apply IH. lia.
Qed.

Lemma numeral_value_nonneg (ds : list nat) : 0 <= numeral_value ds.
Proof. by apply fold_digits_nonneg. Qed.

Lemma pixel_literal_test (neg : bool) (ds : list nat) (t : string) :
  is_numeral ds -> px_suffix t -> pixel_test (pixel_literal neg ds t) = true.
Proof. intros Hds Ht. by apply pixel_test_literal. Qed.

Lemma literal_integer_nonneg (ds : list nat) : 0 <= literal_integer false ds.
Proof. apply numeral_value_nonneg. Qed.

(** What a computed-style value parses to. *)
Lemma parsed_cases (val : option string) :
  parsed val <> NaN /\
  (~ pixel_string val -> parsed val = numZ 0) /\
  (~ negative_literal val -> num_le (numZ 0) (parsed val)) /\
  (forall neg ds t,
     is_numeral ds -> px_suffix t -> val = Some (pixel_literal neg ds t) ->
     parsed val = literal_value neg ds).
Proof.
  destruct val as [s|]; simpl.
  - destruct (pixel_test s) eqn:E.
    + destruct (parseFloat_pixel s E) as (neg & ds & t & Hds & Ht & -> & Hv).
      split; [rewrite Hv; apply to_double_not_NaN|]. split; [|split].
      * intros []. exists (pixel_literal neg ds t). split; [done|].
        by exists neg, ds, t.
      * intros Hneg. rewrite Hv. destruct neg.
        -- destruct Hneg. by exists ds, t.
        -- apply to_double_nonneg, literal_integer_nonneg.
      * intros neg' ds' t' Hds' Ht' [= Hs].
        rewrite Hs. by apply pixel_test_literal.
    + split; [done|]. split; [done|]. split; [intros _; apply Qcle_refl|].
      intros neg ds t Hds Ht [= ->].
      by rewrite pixel_literal_test in E.
  - split; [done|]. split; [done|]. split; [intros _; apply Qcle_refl|].
    done.
Qed.

Lemma toPixels_cases (el : Element) (val : option string) :
  (pixel_string val /\ toPixels el val = VNum (parsed val)) \/
  (~ pixel_string val /\ toPixels el val = VNull).
Proof.
  unfold toPixels, parsed. destruct val as [s|].
  - destruct (pixel_test s) eqn:E.
    + left. split; [exists s; split; [done|by apply pixel_test_inv]|].
      assert (String.eqb s "" = false) as -> by (by destruct s).
      done.
    + right. rewrite andb_false_r. split; [|done].
      intros (s' & [= <-] & neg & ds & t & Hds & Ht & ->).
      by rewrite pixel_literal_test in E.
  - right. split; [|done]. by intros (s' & [=] & _).
Qed.

Section MetricsSides.
Context `{Runtime}.

(** C7, as amended.  Each of the twelve per-side margin, border and
    padding properties of a snapshot is a number, never NaN: the number
    its computed-style string parses to when that is a pixel string,
    which is the double nearest to the integer the string denotes (that
    integer itself up to 2^53), and 0 when it is not a pixel string.
    It is at least 0 unless the string is a pixel string with a minus
    sign, which is stored as the negative number it parses to. *)
Theorem Metrics_sides (el : Element) :
  Forall (fun fp : string * string =>
    let val := computedStyle el !! fp.2 in
    Metrics (Some el) !! fp.1 = Some (VNum (parsed val)) /\
    parsed val <> NaN /\
    (~ pixel_string val -> parsed val = numZ 0) /\
    (~ negative_literal val -> num_le (numZ 0) (parsed val)) /\
    (forall neg ds t,
       is_numeral ds -> px_suffix t ->
       val = Some (pixel_literal neg ds t) ->
       parsed val = literal_value neg ds /\
       (exact_integer (literal_integer neg ds) ->
        parsed val = numZ (literal_integer neg ds))))
    side_fields.
Proof.
  assert (forall f p,
    Metrics (Some el) !! f = Some (px_or_zero el (getStyleObject el) p) ->
    let val := computedStyle el !! p in
    Metrics (Some el) !! f = Some (VNum (parsed val)) /\
    parsed val <> NaN /\
    (~ pixel_string val -> parsed val = numZ 0) /\
    (~ negative_literal val -> num_le (numZ 0) (parsed val)) /\
    (forall neg ds t,
       is_numeral ds -> px_suffix t ->
       val = Some (pixel_literal neg ds t) ->
       parsed val = literal_value neg ds /\
       (exact_integer (literal_integer neg ds) ->
        parsed val = numZ (literal_integer neg ds)))) as Hfield.
  { intros f p Hf val.
    destruct (parsed_cases val) as (Hnan & Hno & Hpos & Hlit).
    split; [|split; [done|split; [done|split; [done|]]]].
    - rewrite Hf. unfold px_or_zero. by rewrite toPixels_parsed.
    - intros neg ds t Hds Ht Hval. rewrite (Hlit neg ds t Hds Ht Hval).
      split; [done|]. apply to_double_whole. }
  unfold side_fields.
  repeat (apply Forall_cons; split; [apply Hfield; reflexivity|]).
  apply Forall_nil_2.
Qed.

Lemma max_or_infinity_number (n : number) :
  n <> NaN ->
  max_or_infinity (VNum n) =
  if decide (n = numZ 0 \/ n = numZ (-1)) then VNum PInf else VNum n.
Proof.
  intros Hn. unfold max_or_infinity. destruct n as [| | |q]; try done.
  simpl. rewrite negb_involutive.
  destruct (Qc_eqb q (Qc_of_Z 0)) eqn:E0.
  { apply Qc_eqb_eq in E0. subst. by rewrite decide_True by auto. }
  destruct (Qc_eqb q (Qc_of_Z (-1))) eqn:E1.
  { apply Qc_eqb_eq in E1. subst. by rewrite decide_True by auto. }
  apply Qc_eqb_neq in E0, E1. rewrite decide_False; [done|].
  unfold numZ. intros [[=]|[=]]; done.
Qed.

End MetricsSides.

(** ** clone *)

Lemma num_eqb_eq (a b : number) : num_eqb a b = true -> a = b.
Proof.
  destruct a, b; simpl; try done. intros E. apply Qc_eqb_eq in E. by subst.
Qed.

Lemma strict_eqb_eq (a b : value) : strict_eqb a b = true -> a = b.
Proof.
  destruct a, b; simpl; try done.
  - intros E. apply Bool.eqb_prop in E. by subst.
  - intros E. apply num_eqb_eq in E. by subst.
  - intros E. apply String.eqb_eq in E. by subst.
  - intros E. apply String.eqb_eq in E. by subst.
Qed.

Lemma elem_of_keys (o : obj) (k : string) :
  k ∈ (map_to_list o).*1 <-> is_Some (o !! k).
Proof.
  rewrite list_elem_of_fmap. split.
  - intros ([k' v] & -> & Hin). apply elem_of_map_to_list in Hin. by exists v.
  - intros [v Hv]. exists (k, v). split; [done|].
    by apply elem_of_map_to_list.
Qed.

Section CloneSpec.
Context `{Runtime}.
Variable prototype : gmap string string.
Variable enumerable : list string.

(** What the prototype gives under a name is identical to itself, and
    [!==] tells it from every other value. *)
Lemma strict_eqb_inherited (k : string) :
  strict_eqb (inherited prototype k) (inherited prototype k) = true.
Proof.
  unfold inherited. destruct (prototype !! k); simpl; [|done].
  apply String.eqb_refl.
Qed.

Lemma strict_neqb_inherited (k : string) (v : value) :
  strict_neqb (inherited prototype k) v = true <->
  v <> inherited prototype k.
Proof.
  unfold strict_neqb. rewrite negb_true_iff. split.
  - intros E ->. by rewrite strict_eqb_inherited in E.
  - intros Hv. destruct (strict_eqb _ v) eqn:E; [|done].
    apply strict_eqb_eq in E. congruence.
Qed.

(** The loop only ever gives the copy properties of the source that
    hold something else than what the prototype gives. *)
Lemma copy_step_kept (o oc : obj) (key : string) :
  (forall k v, oc !! k = Some v ->
     o !! k = Some v /\ v <> inherited prototype k) ->
  forall k v, copy_step prototype o oc key !! k = Some v ->
    o !! k = Some v /\ v <> inherited prototype k.
Proof.
  intros Hinv k v. unfold copy_step, read.
  destruct (strict_neqb _ _) eqn:E; [|apply Hinv].
  destruct (decide (key = k)) as [<-|Hne];
    [|rewrite lookup_insert_ne by done; apply Hinv].
  rewrite lookup_insert_eq. intros [= <-].
  destruct (oc !! key) as [v'|] eqn:Hoc.
  - destruct (Hinv _ _ Hoc) as [Ho Hv]. by rewrite Ho.
  - simpl in E. destruct (o !! key) as [v|] eqn:Ho; simpl in *.
    + split; [done|]. by apply strict_neqb_inherited.
    + unfold strict_neqb in E. by rewrite strict_eqb_inherited in E.
Qed.

Lemma foldl_copy_step_kept (o : obj) (ks : list string) (oc : obj) :
  (forall k v, oc !! k = Some v ->
     o !! k = Some v /\ v <> inherited prototype k) ->
  forall k v, foldl (copy_step prototype o) oc ks !! k = Some v ->
    o !! k = Some v /\ v <> inherited prototype k.
Proof.
  revert oc. induction ks as [|k0 ks IH]; intros oc Hinv; simpl; [done|].
  apply IH. by apply copy_step_kept.
Qed.

(** A property that the copy has stays as it is. *)
Lemma copy_step_holds (o oc : obj) (key k : string) (v : value) :
  (forall k v, oc !! k = Some v ->
     o !! k = Some v /\ v <> inherited prototype k) ->
  oc !! k = Some v -> copy_step prototype o oc key !! k = Some v.
Proof.
  intros Hinv Hk. unfold copy_step.
  destruct (strict_neqb _ _); [|done].
  destruct (decide (key = k)) as [->|Hne]; [|by rewrite lookup_insert_ne].
  rewrite lookup_insert_eq. unfold read.
  by destruct (Hinv _ _ Hk) as [-> _].
Qed.

Lemma foldl_copy_step_holds (o : obj) (ks : list string) (oc : obj)
    (k : string) (v : value) :
  (forall k v, oc !! k = Some v ->
     o !! k = Some v /\ v <> inherited prototype k) ->
  oc !! k = Some v -> foldl (copy_step prototype o) oc ks !! k = Some v.
Proof.
  revert oc. induction ks as [|k0 ks IH]; intros oc Hinv Hk; simpl; [done|].
  apply IH; [by apply copy_step_kept|by apply copy_step_holds].
Qed.

(** A property of the source that is visited and holds something else
    than what the prototype gives is written on the copy. *)
Lemma foldl_copy_step_writes (o : obj) (ks : list string) (oc : obj)
    (k : string) (v : value) :
  (forall k v, oc !! k = Some v ->
     o !! k = Some v /\ v <> inherited prototype k) ->
  k ∈ ks -> o !! k = Some v -> v <> inherited prototype k ->
  foldl (copy_step prototype o) oc ks !! k = Some v.
Proof.
  revert oc. induction ks as [|k0 ks IH]; intros oc Hinv Hin Hk Hv; simpl.
  - by apply elem_of_nil in Hin.
  - apply elem_of_cons in Hin as [<-|Hin].
    + apply foldl_copy_step_holds; [by apply copy_step_kept|].
      unfold copy_step, read. rewrite Hk. simpl.
      destruct (oc !! k) as [v'|] eqn:Hoc; simpl.
      * destruct (Hinv _ _ Hoc) as [E _].
        assert (v' = v) as -> by congruence.
        destruct (strict_neqb v v); [by rewrite lookup_insert_eq|done].
      * rewrite (proj2 (strict_neqb_inherited k v)) by done.
        by rewrite lookup_insert_eq.
    + apply IH; [by apply copy_step_kept|done..].
Qed.

(** The copy built by the loop. *)
Lemma copy_all_kept (o : obj) :
  foldl (copy_step prototype o) ∅
    ((map_to_list o).*1 ++
     filter (fun k => k ∉ (map_to_list o).*1) enumerable) =
  kept_properties prototype o.
Proof.
  set (ks := (map_to_list o).*1 ++ _).
  assert (forall k v, (∅ : obj) !! k = Some v ->
            o !! k = Some v /\ v <> inherited prototype k) as Hinv
    by (intros ? ?; by rewrite lookup_empty).
  apply map_eq. intros k. unfold kept_properties.
  destruct (filter _ o !! k) as [v|] eqn:E.
  - apply map_lookup_filter_Some in E as [Hk Hv]. simpl in Hv.
    apply foldl_copy_step_writes; [done| |done|done].
    apply elem_of_app. left. apply elem_of_keys. by exists v.
  - destruct (foldl _ _ ks !! k) as [v|] eqn:E'; [|done].
    destruct (foldl_copy_step_kept o ks ∅ Hinv k v E') as [Hk Hv].
    assert (filter (fun kv : string * value =>
                      kv.2 <> inherited prototype kv.1) o !! k = Some v)
      as E'' by (by apply map_lookup_filter_Some).
    congruence.
Qed.

(** The kept properties read like the source everywhere. *)
Lemma read_kept (o : obj) (k : string) :
  read prototype (kept_properties prototype o) k = read prototype o k.
Proof.
  unfold read, kept_properties.
  destruct (filter _ o !! k) as [v|] eqn:E.
  - apply map_lookup_filter_Some in E as [-> _]. done.
  - apply map_lookup_filter_None in E as [->|E]; [done|].
    destruct (o !! k) as [v|] eqn:Hk; [|done]. simpl.
    destruct (decide (v = inherited prototype k)) as [->|Hv]; [done|].
    by destruct (E v eq_refl).
Qed.

Lemma kept_all (o : obj) :
  kept_properties prototype o = o <->
  (forall k v, o !! k = Some v -> v <> inherited prototype k).
Proof.
  unfold kept_properties. split.
  - intros E k v Hk. rewrite <- E in Hk.
    by apply map_lookup_filter_Some in Hk as [_ Hv].
  - intros Hall. apply map_filter_id. intros k v Hk. by apply (Hall k).
Qed.

Lemma clone_step_objects (this copy : loc) (h : heap) (o oc : obj)
    (key : string) :
  copy <> this -> h !! this = Some o -> h !! copy = Some oc ->
  clone_step prototype this copy h key =
  <[copy := copy_step prototype o oc key]> h.
Proof.
  intros Hne Ho Hoc. unfold clone_step, copy_step, hget, hset.
  rewrite Ho, Hoc. simpl.
  destruct (strict_neqb (read prototype oc key) (read prototype o key)).
  - apply map_eq. intros l. destruct (decide (l = copy)) as [->|Hl].
    + by rewrite lookup_alter_eq, lookup_insert_eq, Hoc.
    + by rewrite lookup_alter_ne, lookup_insert_ne.
  - by rewrite insert_id.
Qed.

Lemma foldl_clone_step (this copy : loc) (o : obj) (ks : list string)
    (h : heap) (oc : obj) :
  copy <> this -> h !! this = Some o -> h !! copy = Some oc ->
  foldl (clone_step prototype this copy) h ks =
  <[copy := foldl (copy_step prototype o) oc ks]> h.
Proof.
  intros Hne. revert h oc.
  induction ks as [|k ks IH]; intros h oc Ho Hoc; simpl.
  - by rewrite insert_id.
  - rewrite (clone_step_objects this copy h o oc) by done.
    rewrite (IH _ (copy_step prototype o oc k)).
    + by rewrite insert_insert_eq.
    + by rewrite lookup_insert_ne.
    + by rewrite lookup_insert_eq.
Qed.

(** The store that [clone] leaves: the one it found, and the copy at a
    new address. *)
Lemma clone_result (h : heap) (this : loc) (o : obj) :
  h !! this = Some o ->
  clone prototype enumerable this h =
  (fresh (dom h), <[fresh (dom h) := kept_properties prototype o]> h).
Proof.
  intros Ho. unfold clone, new_Metrics. cbn [Metrics_init].
  set (copy := fresh (dom h)).
  assert (h !! copy = None) as Hfresh
    by (apply not_elem_of_dom, is_fresh).
  assert (copy <> this) as Hne by (intros ->; congruence).
  assert (<[copy := ∅]> h !! this = Some o) as Ho'
    by (by rewrite lookup_insert_ne).
  rewrite Ho'. simpl.
  rewrite (foldl_clone_step this copy o _ _ ∅ Hne Ho')
    by apply lookup_insert_eq.
  by rewrite insert_insert_eq, copy_all_kept.
Qed.

(** C8, as amended.  Called on any object of the store, whatever its
    properties and however it was built, [clone] returns a new object
    on which every property reads the same value as on the source.
    The copy goes over all the own properties of the source, not over
    a fixed list, but it is not a copy of every one of them: the own
    properties of the clone are those of the source that hold
    something else than what the prototype gives under their name, so
    a property holding [undefined] that nothing is inherited for is
    not a property of the clone (it reads [undefined] there all the
    same).  The source is untouched, and a later write to the copy
    leaves it untouched too. *)
Theorem clone_spec (h : heap) (this : loc) (o : obj) :
  h !! this = Some o ->
  clone_post prototype this o h (clone prototype enumerable this h).
Proof.
  intros Ho. rewrite (clone_result h this o Ho).
  set (copy := fresh (dom h)).
  assert (h !! copy = None) as Hfresh
    by (apply not_elem_of_dom, is_fresh).
  assert (copy <> this) as Hne by (intros ->; congruence).
  unfold clone_post. simpl.
  split; [done|]. split; [done|]. split; [|split; [|split]].
  - intros l Hl. by rewrite lookup_insert_ne.
  - intros k. unfold hget.
    rewrite lookup_insert_eq, lookup_insert_ne, Ho by done. simpl.
    apply read_kept.
  - apply lookup_insert_eq.
  - intros k v. unfold hset, hget. split.
    + by rewrite lookup_alter_ne, lookup_insert_ne.
    + rewrite lookup_alter_eq, lookup_insert_eq. simpl.
      unfold read. by rewrite lookup_insert_eq.
Qed.
End CloneSpec.

(** ** Snapshots handed to mergeSizeRange *)

Section SnapshotFootprint.
Context `{Runtime}.

Lemma Metrics_no_outer_size (e : option Element) :
  Metrics e !! "outerWidth" = None /\ Metrics e !! "outerHeight" = None.
Proof. destruct e; split; reflexivity. Qed.

(** C9.  A snapshot made by the constructor, with or without an
    element, has no [outerWidth] or [outerHeight] property (it has
    [outerW] and [outerH]).  Handed to [mergeSizeRange] with [outer],
    its footprint is therefore its [bpWidth] (or [bpHeight]) or 0 and
    never the difference of outer and inner size; when [bpWidth] (or
    [bpHeight]) is absent or 0 the footprint is 0. *)
Theorem snapshot_footprint (e : option Element) :
  let m := Metrics e in
  (m !! "outerWidth" = None /\ m !! "outerHeight" = None) /\
  (bpWidth_of m true = js_or (get m "bpWidth") (VNum (numZ 0)) /\
   bpHeight_of m true = js_or (get m "bpHeight") (VNum (numZ 0))) /\
  (m !! "bpWidth" = None \/ m !! "bpWidth" = Some (VNum (numZ 0)) ->
   bpWidth_of m true = VNum (numZ 0)) /\
  (m !! "bpHeight" = None \/ m !! "bpHeight" = Some (VNum (numZ 0)) ->
   bpHeight_of m true = VNum (numZ 0)).
Proof.
  intros m. destruct (Metrics_no_outer_size e) as [Hw Hh]. fold m in Hw, Hh.
  assert (bpWidth_of m true = js_or (get m "bpWidth") (VNum (numZ 0)))
    as Ebw.
  { unfold bpWidth_of. unfold get at 2. by rewrite Hw. }
  assert (bpHeight_of m true = js_or (get m "bpHeight") (VNum (numZ 0)))
    as Ebh.
  { unfold bpHeight_of. unfold get at 2. by rewrite Hh. }
  split; [done|]. split; [done|]. split.
  - intros Hbp. rewrite Ebw. unfold get. by destruct Hbp as [-> | ->].
  - intros Hbp. rewrite Ebh. unfold get. by destruct Hbp as [-> | ->].
Qed.
End SnapshotFootprint.

(* ================================================================== *)
(** * Further properties *)
(* ================================================================== *)

(** ** toPixels *)

(** A whole number rounds to a whole number or to an infinity. *)
Lemma Q2Qc_inject_Z (z : Z) : Q2Qc (inject_Z z) = Qc_of_Z z.
Proof. apply Qc_is_canon. simpl. by rewrite Qred_correct. Qed.

Lemma to_double_integer (z : Z) :
  to_double (Qc_of_Z z) = PInf \/ to_double (Qc_of_Z z) = NInf \/
  exists z' : Z, to_double (Qc_of_Z z) = numZ z'.
Proof.
  assert (forall n : positive,
    exists z' : Z, (round_positive (Z.pos n) 1 == inject_Z z')%Q) as Hpos.
  { intros n. unfold round_positive.
    rewrite log2_floor_whole by done.
    set (e := Z.max _ _). destruct (Z.leb_spec 0 e) as [He|He].
    - by eexists.
    - exists (Z.pos n).
      assert (0 < 2 ^ (- e)) by (apply Z.pow_pos_nonneg; lia).
      rewrite <- (Z.mul_1_r (Z.pos n * 2 ^ (- e))).
      rewrite round_half_even_multiple by lia.
      unfold Qeq. simpl. rewrite Z2Pos.id by done. lia. }
  unfold to_double.
  destruct z as [|n|n]; cbn [Qc_of_Z this inject_Z Qnum Qden].
  - right. right. by exists 0.
  - destruct (Qle_bool _ _); [by left|]. right. right.
    destruct (Hpos n) as [z' Hz']. exists z'. unfold numZ. f_equal.
    rewrite <- Q2Qc_inject_Z. apply Qc_is_canon. simpl.
    by rewrite !Qred_correct.
  - destruct (Qle_bool _ _); [by right; left|]. right. right.
    destruct (Hpos n) as [z' Hz']. exists (- z'). unfold numZ. f_equal.
    rewrite <- Q2Qc_inject_Z. apply Qc_is_canon. simpl.
    rewrite !Qred_correct, Hz'. unfold Qeq. simpl. lia.
Qed.

(** X1.  [toPixels] never returns anything but [null], a whole number or
    an infinity (for a numeral beyond the range of doubles): no NaN, no
    fraction, no string. *)
Theorem toPixels_whole (el : Element) (val : option string) :
  toPixels el val = VNull \/
  toPixels el val = VNum PInf \/ toPixels el val = VNum NInf \/
  exists z : Z, toPixels el val = VNum (numZ z).
Proof.
  destruct (toPixels_cases el val) as [[(s & -> & Hs) ->]|[_ ->]];
    [|by left].
  destruct Hs as (neg & ds & t & Hds & Ht & ->).
  destruct (parsed_cases (Some (pixel_literal neg ds t)))
    as (_ & _ & _ & Hlit).
  rewrite (Hlit neg ds t Hds Ht eq_refl). unfold literal_value.
  destruct (to_double_integer (literal_integer neg ds))
    as [->|[->|[z ->]]]; eauto.
Qed.

Lemma list_ascii_of_string_app (a b : string) :
  list_ascii_of_string (a ++ b) =
  (list_ascii_of_string a ++ list_ascii_of_string b)%list.
Proof. induction a as [|c a IH]; simpl; [done|]. by rewrite IH. Qed.

Lemma numeral_chars (ds : list nat) (c : ascii) :
  Forall (fun d => (d < 10)%nat) ds ->
  In c (list_ascii_of_string (numeral ds)) -> is_digit c = true.
Proof.
  induction 1 as [|d ds Hd _ IH]; simpl; [done|].
  intros [<-|Hc]; [|by apply IH].
  unfold is_digit. by rewrite digit_val_char.
Qed.

Lemma pixel_literal_chars (neg : bool) (ds : list nat) (t : string)
    (c : ascii) :
  is_numeral ds -> px_suffix t ->
  In c (list_ascii_of_string (pixel_literal neg ds t)) ->
  pixel_char c = true.
Proof.
  intros [_ Hds] Ht. unfold pixel_literal.
  rewrite !list_ascii_of_string_app, !in_app_iff. intros [Hc|[Hc|Hc]].
  - destruct neg; simpl in Hc; [|done]. by destruct Hc as [<-|[]].
  - unfold pixel_char. by rewrite (numeral_chars ds c Hds Hc).
  - unfold px_suffix in Ht. simpl in Ht.
    destruct Ht as [<-|[<-|[<-|[<-|[<-|[]]]]]]; simpl in Hc;
      repeat (destruct Hc as [<-|Hc]; [reflexivity|]); done.
Qed.

(** X2.  A string that holds any character other than a digit, a minus sign
    or the letters of [px] is not a pixel string for [toPixels], which
    returns [null] on it, and it counts for 0 pixels in a snapshot; a
    fraction such as [12.5px] is a case in point. *)
Theorem toPixels_foreign_char (el : Element) (s : string) (c : ascii) :
  In c (list_ascii_of_string s) -> pixel_char c = false ->
  toPixels el (Some s) = VNull /\ parsed (Some s) = numZ 0.
Proof.
  intros Hin Hc.
  assert (pixel_test s = false) as Htest.
  { destruct (pixel_test s) eqn:E; [|done].
    destruct (pixel_test_inv s E) as (neg & ds & t & Hds & Ht & ->).
    by rewrite (pixel_literal_chars neg ds t c Hds Ht Hin) in Hc. }
  unfold toPixels, parsed. by rewrite Htest, andb_false_r.
Qed.

(** ** roundUp *)

(** X3.  For a whole number that is not negative and a positive whole base,
    neither above 2^52, so that every operation of [roundUp] is exact
    on doubles, [roundUp] is the least multiple of the base strictly
    above the number. *)
Theorem roundUp_least_multiple (n b : Z) :
  0 <= n -> 0 < b -> n <= 2 ^ 52 -> b <= 2 ^ 52 ->
  exists m : Z,
    roundUp (numZ n) (numZ b) = numZ (m * b) /\
    n < m * b /\
    forall k : Z, n < k * b -> m * b <= k * b.
Proof.
  intros Hn Hb Hn' Hb'. exists (Z.quot n b + 1).
  rewrite roundUp_integers by (done || lia).
  pose proof (Z.quot_rem' n b) as Hq.
  pose proof (Z.rem_bound_pos n b Hn Hb) as Hr.
  split; [f_equal; lia|]. split; [nia|].
  intros k Hk. assert (Z.quot n b < k) by nia. nia.
Qed.

(** X4.  For a negative whole number that is not a multiple of the positive
    whole base, neither beyond 2^52 in magnitude, so that every
    operation of [roundUp] is exact on doubles, the remainder is
    negative and [roundUp] overshoots: a multiple of the base lies
    strictly between the number and the result. *)
Theorem roundUp_negative_overshoot (n b : Z) :
  n < 0 -> 0 < b -> Z.rem n b <> 0 -> - 2 ^ 52 <= n -> b <= 2 ^ 52 ->
  exists m : Z,
    roundUp (numZ n) (numZ b) = numZ (m * b) /\
    n < (m - 1) * b /\ (m - 1) * b < m * b.
Proof.
  intros Hn Hb Hrem Hn' Hb'. exists (Z.quot n b + 1).
  rewrite roundUp_integers by (done || lia).
  pose proof (Z.quot_rem' n b) as Hq.
  pose proof (Z.rem_nonpos n b) as Hr.
  split; [f_equal; lia|]. split; nia.
Qed.

(** X5.  [roundUp] is not a number when the base is 0, when the base is not
    a number, and when the number to round is not finite. *)
Theorem roundUp_not_a_number (x : number) :
  roundUp x (numZ 0) = NaN /\ roundUp x NaN = NaN /\
  roundUp NaN x = NaN /\ roundUp PInf x = NaN /\ roundUp NInf x = NaN.
Proof.
  unfold roundUp, num_sub.
  repeat split; destruct x; simpl; try reflexivity.
  all: by destruct (num_add _ _).
Qed.

(** ** The merge as an operation on ranges *)

Lemma num_le_trans (a b c : number) : num_le a b -> num_le b c -> num_le a c.
Proof.
  destruct a, b, c; simpl; try done. apply Qcle_trans.
Qed.

Lemma num_le_antisym (a b : number) : num_le a b -> num_le b a -> a = b.
Proof.
  destruct a, b; simpl; try done. intros H1 H2. f_equal.
  by apply Qcle_antisym.
Qed.

Lemma larger_of_unique (x y r r' : number) :
  larger_of x y r -> larger_of x y r' -> r = r'.
Proof.
  intros ([-> | ->] & Hx & Hy) ([-> | ->] & Hx' & Hy'); try done;
    by apply num_le_antisym.
Qed.

Lemma smaller_of_unique (x y r r' : number) :
  smaller_of x y r -> smaller_of x y r' -> r = r'.
Proof.
  intros ([-> | ->] & Hx & Hy) ([-> | ->] & Hx' & Hy'); try done;
    by apply num_le_antisym.
Qed.

Lemma num_max_not_NaN (x y : number) :
  x <> NaN -> y <> NaN -> num_max x y <> NaN.
Proof.
  intros Hx Hy. by destruct (num_max_larger x y Hx Hy) as ([-> | ->] & _).
Qed.

Lemma num_min_not_NaN (x y : number) :
  x <> NaN -> y <> NaN -> num_min x y <> NaN.
Proof.
  intros Hx Hy. by destruct (num_min_smaller x y Hx Hy) as ([-> | ->] & _).
Qed.

Lemma num_max_comm (x y : number) :
  x <> NaN -> y <> NaN -> num_max x y = num_max y x.
Proof.
  intros Hx Hy. apply (larger_of_unique x y); [by apply num_max_larger|].
  destruct (num_max_larger y x Hy Hx) as (Hor & H1 & H2).
  split; [tauto|done].
Qed.

Lemma num_min_comm (x y : number) :
  x <> NaN -> y <> NaN -> num_min x y = num_min y x.
Proof.
  intros Hx Hy. apply (smaller_of_unique x y); [by apply num_min_smaller|].
  destruct (num_min_smaller y x Hy Hx) as (Hor & H1 & H2).
  split; [tauto|done].
Qed.

Lemma num_max_assoc (x y z : number) :
  x <> NaN -> y <> NaN -> z <> NaN ->
  num_max (num_max x y) z = num_max x (num_max y z).
Proof.
  intros Hx Hy Hz.
  pose proof (num_max_not_NaN x y Hx Hy) as Hxy.
  pose proof (num_max_not_NaN y z Hy Hz) as Hyz.
  destruct (num_max_larger x y Hx Hy) as (Oxy & Lx & Ly).
  destruct (num_max_larger y z Hy Hz) as (Oyz & Ly' & Lz).
  destruct (num_max_larger (num_max x y) z Hxy Hz) as (Ol & Ll & Llz).
  destruct (num_max_larger x (num_max y z) Hx Hyz) as (Or & Lrx & Lr).
  apply num_le_antisym.
  - destruct Ol as [-> | ->].
    + destruct Oxy as [-> | ->]; [done|].
      by apply (num_le_trans _ (num_max y z)).
    + by apply (num_le_trans _ (num_max y z)).
  - destruct Or as [-> | ->].
    + by apply (num_le_trans _ (num_max x y)).
    + destruct Oyz as [-> | ->]; [|done].
      by apply (num_le_trans _ (num_max x y)).
Qed.

Lemma num_min_assoc (x y z : number) :
  x <> NaN -> y <> NaN -> z <> NaN ->
  num_min (num_min x y) z = num_min x (num_min y z).
Proof.
  intros Hx Hy Hz.
  pose proof (num_min_not_NaN x y Hx Hy) as Hxy.
  pose proof (num_min_not_NaN y z Hy Hz) as Hyz.
  destruct (num_min_smaller x y Hx Hy) as (Oxy & Lx & Ly).
  destruct (num_min_smaller y z Hy Hz) as (Oyz & Ly' & Lz).
  destruct (num_min_smaller (num_min x y) z Hxy Hz) as (Ol & Ll & Llz).
  destruct (num_min_smaller x (num_min y z) Hx Hyz) as (Or & Lrx & Lr).
  apply num_le_antisym.
  - destruct Or as [-> | ->].
    + by apply (num_le_trans _ (num_min x y)).
    + destruct Oyz as [-> | ->]; [|done].
      by apply (num_le_trans _ (num_min x y)).
  - destruct Ol as [-> | ->].
    + destruct Oxy as [-> | ->]; [done|].
      by apply (num_le_trans _ (num_min y z)).
    + by apply (num_le_trans _ (num_min y z)).
Qed.

Lemma num_max_idem (x : number) : x <> NaN -> num_max x x = x.
Proof.
  intros Hx. by destruct (num_max_larger x x Hx Hx) as ([-> | ->] & _).
Qed.

Lemma num_min_idem (x : number) : x <> NaN -> num_min x x = x.
Proof.
  intros Hx. by destruct (num_min_smaller x x Hx Hx) as ([-> | ->] & _).
Qed.

(** [min_of] and [max_of] leave alone what they produce. *)
Lemma min_of_number (n : number) : n <> NaN -> min_of (Some n) = n.
Proof.
  intros Hn. pose proof (min_of_cases (Some n)) as Hc. by destruct n.
Qed.

Lemma max_of_not_zero (m : option number) : max_of m <> numZ 0.
Proof.
  pose proof (max_of_cases m) as Hc. unfold numZ.
  destruct m as [[| | |q]|]; try (rewrite Hc; done).
  destruct Hc as [H0 Hq]. destruct (decide (q = Qc_of_Z 0)) as [E|E].
  - by rewrite (H0 E).
  - rewrite (Hq E). congruence.
Qed.

Lemma max_of_number (n : number) :
  n <> NaN -> n <> numZ 0 -> max_of (Some n) = n.
Proof.
  intros Hn H0. pose proof (max_of_cases (Some n)) as Hc.
  destruct n as [| | |q]; try done. destruct Hc as [_ Hq]. apply Hq.
  unfold numZ in H0. congruence.
Qed.

Lemma num_min_max_of_not_zero (m m' : option number) :
  num_min (max_of m) (max_of m') <> numZ 0.
Proof.
  destruct (num_min_smaller (max_of m) (max_of m')
              (max_of_not_NaN m) (max_of_not_NaN m')) as ([-> | ->] & _);
    apply max_of_not_zero.
Qed.

Lemma size_range_numbers (w h mw mh : number) :
  size_range w h mw mh = of_numbers (size_numbers w h mw mh).
Proof.
  unfold size_range, size_numbers, of_numbers.
  by rewrite !fmap_insert, fmap_empty.
Qed.

Section MergeAlgebra.
Context `{Runtime}.

(** The merge without [outer], field by field. *)
Lemma merge_inner_fields (a b : option (gmap string number)) :
  mergeSizeRange (of_numbers <$> a) (of_numbers <$> b) false =
  size_range
    (num_max (min_of (default ∅ a !! "width"))
             (min_of (default ∅ b !! "width")))
    (num_max (min_of (default ∅ a !! "height"))
             (min_of (default ∅ b !! "height")))
    (num_min (max_of (default ∅ a !! "maxW"))
             (max_of (default ∅ b !! "maxW")))
    (num_min (max_of (default ∅ a !! "maxH"))
             (max_of (default ∅ b !! "maxH"))).
Proof.
  unfold mergeSizeRange, bpWidth_of, bpHeight_of.
  rewrite !default_of_numbers. cbv zeta iota.
  by rewrite merge_fields, !plus_footprint_0.
Qed.

(** Without [outer], what the merge makes of a merged range and a
    further input. *)
Lemma merge_inner_left (w h mw mh : number) (c : option (gmap string number)) :
  mergeSizeRange (Some (size_range w h mw mh)) (of_numbers <$> c) false =
  size_range
    (num_max (min_of (Some w)) (min_of (default ∅ c !! "width")))
    (num_max (min_of (Some h)) (min_of (default ∅ c !! "height")))
    (num_min (max_of (Some mw)) (max_of (default ∅ c !! "maxW")))
    (num_min (max_of (Some mh)) (max_of (default ∅ c !! "maxH"))).
Proof.
  rewrite size_range_numbers.
  apply (merge_inner_fields (Some (size_numbers w h mw mh)) c).
Qed.

Lemma merge_inner_right (w h mw mh : number) (a : option (gmap string number)) :
  mergeSizeRange (of_numbers <$> a) (Some (size_range w h mw mh)) false =
  size_range
    (num_max (min_of (default ∅ a !! "width")) (min_of (Some w)))
    (num_max (min_of (default ∅ a !! "height")) (min_of (Some h)))
    (num_min (max_of (default ∅ a !! "maxW")) (max_of (Some mw)))
    (num_min (max_of (default ∅ a !! "maxH")) (max_of (Some mh))).
Proof.
  rewrite size_range_numbers.
  apply (merge_inner_fields a (Some (size_numbers w h mw mh))).
Qed.

(** X6.  Without [outer] the merge of two objects of numbers does not depend
    on which of the two comes first. *)
Theorem mergeSizeRange_comm (a b : option (gmap string number)) :
  mergeSizeRange (of_numbers <$> a) (of_numbers <$> b) false =
  mergeSizeRange (of_numbers <$> b) (of_numbers <$> a) false.
Proof.
  rewrite !merge_inner_fields.
  f_equal; first [ apply num_max_comm; apply min_of_not_NaN
                 | apply num_min_comm; apply max_of_not_NaN ].
Qed.

(** X7.  Without [outer], merging three objects of numbers gives the same
    range whichever two are merged first. *)
Theorem mergeSizeRange_assoc (a b c : option (gmap string number)) :
  mergeSizeRange
    (Some (mergeSizeRange (of_numbers <$> a) (of_numbers <$> b) false))
    (of_numbers <$> c) false =
  mergeSizeRange (of_numbers <$> a)
    (Some (mergeSizeRange (of_numbers <$> b) (of_numbers <$> c) false))
    false.
Proof.
  rewrite (merge_inner_fields a b), (merge_inner_fields b c).
  rewrite merge_inner_left, merge_inner_right.
  rewrite !min_of_number
    by (apply num_max_not_NaN; apply min_of_not_NaN).
  rewrite !max_of_number
    by first [ apply num_min_not_NaN; apply max_of_not_NaN
             | apply num_min_max_of_not_zero ].
  f_equal; first [ apply num_max_assoc; apply min_of_not_NaN
                 | apply num_min_assoc; apply max_of_not_NaN ].
Qed.

(** X8.  A range produced by the merge without [outer] is given back
    unchanged when it is merged with itself. *)
Theorem mergeSizeRange_idem (a b : option (gmap string number)) :
  let r := mergeSizeRange (of_numbers <$> a) (of_numbers <$> b) false in
  mergeSizeRange (Some r) (Some r) false = r.
Proof.
  intros r. subst r. rewrite (merge_inner_fields a b).
  set (w := num_max _ _). set (h := num_max _ (min_of (_ !! "height"))).
  set (mw := num_min _ _). set (mh := num_min _ (max_of (_ !! "maxH"))).
  assert (w <> NaN) as Hw by (apply num_max_not_NaN; apply min_of_not_NaN).
  assert (h <> NaN) as Hh by (apply num_max_not_NaN; apply min_of_not_NaN).
  assert (mw <> NaN) as Hmw
    by (apply num_min_not_NaN; apply max_of_not_NaN).
  assert (mh <> NaN) as Hmh
    by (apply num_min_not_NaN; apply max_of_not_NaN).
  rewrite (size_range_numbers w h mw mh) at 2.
  change (Some (of_numbers (size_numbers w h mw mh)))
    with (of_numbers <$> Some (size_numbers w h mw mh)).
  rewrite merge_inner_left.
  change (default ∅ (Some (size_numbers w h mw mh)) !! "width")
    with (Some w).
  change (default ∅ (Some (size_numbers w h mw mh)) !! "height")
    with (Some h).
  change (default ∅ (Some (size_numbers w h mw mh)) !! "maxW")
    with (Some mw).
  change (default ∅ (Some (size_numbers w h mw mh)) !! "maxH")
    with (Some mh).
  rewrite !min_of_number by done.
  rewrite !max_of_number by (done || apply num_min_max_of_not_zero).
  by rewrite !num_max_idem, !num_min_idem.
Qed.
End MergeAlgebra.

(** ** Ranges, merged ranges and snapshots *)

Lemma or_zero_num (n : number) :
  js_or (VNum n) (VNum (numZ 0)) = VNum (min_of (Some n)).
Proof. apply (or_zero_fld (Some n)). Qed.

Lemma truthy_number (n : number) :
  n <> NaN -> n <> numZ 0 -> to_boolean (VNum n) = true.
Proof.
  intros Hn H0. destruct n as [| | |q]; try done. simpl.
  apply negb_true_iff, Qc_eqb_neq. intros ->. by apply H0.
Qed.

Lemma truthy_max_or_infinity (el : Element) (val : option string) :
  exists n : number,
    n <> NaN /\
    max_or_infinity (toPixels el val) = VNum n /\
    to_boolean (VNum n) = true.
Proof.
  destruct (toPixels_cases el val) as [[_ ->]|[_ ->]].
  - destruct (parsed_cases val) as (Hnan & _).
    rewrite max_or_infinity_number by done. case_decide as Hz.
    + by exists PInf.
    + exists (parsed val). split; [done|]. split; [done|].
      apply truthy_number; tauto.
  - by exists PInf.
Qed.

Lemma small_numZ (n : number) :
  small n -> exists z : Z, n = numZ z /\ Z.abs z <= 2 ^ 50.
Proof.
  destruct n as [| | |q]; try done. intros [Hden Hnum].
  exists (Qnum q). split; [|done]. unfold numZ. f_equal.
  apply Qc_is_canon. unfold Qeq. simpl. rewrite Hden. lia.
Qed.

Section RangesAndSnapshots.
Context `{Runtime}.

Lemma js_ge_undefined (v : value) : js_ge v VUndef = false.
Proof. destruct v as [| |[]| | |]; reflexivity. Qed.

(** X9.  A range made by [mergeSizeRange] has [width] and [height] but no
    [minW] and [minH], which [inSizeRange] compares the size with: it
    accepts no size at all when handed such a range, whatever was
    merged. *)
Theorem inSizeRange_merged (a b : option obj) (outer : bool) (size : obj) :
  inSizeRange (Some (mergeSizeRange a b outer)) size = false.
Proof.
  unfold inSizeRange.
  assert (get (mergeSizeRange a b outer) "minW" = VUndef) as ->.
  { unfold get, mergeSizeRange. cbv zeta.
    by rewrite !lookup_insert_ne, lookup_empty. }
  by rewrite js_ge_undefined.
Qed.

(** X10.  The constructor called with an element defines the same thirty-one
    properties whatever the computed style holds: a value that cannot
    be read leaves a default behind, never a missing property.  Called
    without an element it defines none. *)
Theorem Metrics_keys (el : Element) :
  dom (Metrics (Some el)) = list_to_set snapshot_keys /\
  Metrics None = ∅.
Proof. split; reflexivity. Qed.


(** X11.  [lineHeight] is never 0 and never NaN: it is [null] when the
    computed line height is not a pixel string or parses to 0, and the
    number it parses to otherwise. *)
Theorem Metrics_lineHeight (el : Element) :
  let val := computedStyle el !! "lineHeight" in
  let m := Metrics (Some el) in
  (m !! "lineHeight" = Some VNull /\
   (~ pixel_string val \/ parsed val = numZ 0)) \/
  (m !! "lineHeight" = Some (VNum (parsed val)) /\
   parsed val <> numZ 0 /\ parsed val <> NaN /\ pixel_string val).
Proof.
  intros val m.
  assert (m !! "lineHeight" =
          Some (js_or (toPixels el (getStyleObject el !! "lineHeight")) VNull))
    as -> by reflexivity.
  unfold getStyleObject. fold val.
  destruct (toPixels_cases el val) as [[Hpx ->]|[Hpx ->]].
  - destruct (parsed_cases val) as (Hnan & _).
    destruct (decide (parsed val = numZ 0)) as [E|E].
    + left. rewrite E. auto.
    + right. unfold js_or. by rewrite truthy_number.
  - left. auto.
Qed.

(** X12.  A snapshot has all that [inSizeRange] reads of a range: its [minW],
    [minH], [maxW] and [maxH] are numbers (the maximums possibly +∞),
    and a size of numbers is accepted exactly when its width lies
    between [minW] and [maxW] and its height between [minH] and [maxH],
    bounds included. *)
Theorem inSizeRange_snapshot (el : Element) :
  let m := Metrics (Some el) in
  exists lo_w lo_h hi_w hi_h : number,
    (m !! "minW" = Some (VNum lo_w) /\ m !! "minH" = Some (VNum lo_h) /\
     m !! "maxW" = Some (VNum hi_w) /\ m !! "maxH" = Some (VNum hi_h)) /\
    forall size : gmap string number,
      inSizeRange (Some m) (of_numbers size) = true <->
      at_least (size !! "w") (Some lo_w) /\
      at_least (size !! "h") (Some lo_h) /\
      at_most (size !! "w") (Some hi_w) /\
      at_most (size !! "h") (Some hi_h).
Proof.
  intros m.
  destruct (truthy_max_or_infinity el (getStyleObject el !! "maxWidth"))
    as (hi_w & _ & Ehw & Thw).
  destruct (truthy_max_or_infinity el (getStyleObject el !! "maxHeight"))
    as (hi_h & _ & Ehh & Thh).
  exists (parsed (getStyleObject el !! "minWidth")),
         (parsed (getStyleObject el !! "minHeight")), hi_w, hi_h.
  assert (m !! "minW" = Some (VNum (parsed (getStyleObject el !! "minWidth"))))
    as Hlw.
  { transitivity (Some (px_or_zero el (getStyleObject el) "minWidth"));
      [reflexivity|]. unfold px_or_zero. by rewrite toPixels_parsed. }
  assert (m !! "minH" = Some (VNum (parsed (getStyleObject el !! "minHeight"))))
    as Hlh.
  { transitivity (Some (px_or_zero el (getStyleObject el) "minHeight"));
      [reflexivity|]. unfold px_or_zero. by rewrite toPixels_parsed. }
  assert (m !! "maxW" = Some (VNum hi_w)) as Hhw.
  { transitivity
      (Some (max_or_infinity (toPixels el (getStyleObject el !! "maxWidth"))));
      [reflexivity|]. by rewrite Ehw. }
  assert (m !! "maxH" = Some (VNum hi_h)) as Hhh.
  { transitivity
      (Some (max_or_infinity (toPixels el (getStyleObject el !! "maxHeight"))));
      [reflexivity|]. by rewrite Ehh. }
  clearbody m.
  split; [exact (conj Hlw (conj Hlh (conj Hhw Hhh)))|].
  intros size. unfold inSizeRange.
  rewrite !get_of_numbers. unfold get. rewrite Hlw, Hlh, Hhw, Hhh.
  cbn [default from_option id]. rewrite Thw, Thh. cbn [negb orb].
  rewrite !andb_true_iff.
  rewrite <- (js_ge_fld (size !! "w") (Some _)),
          <- (js_ge_fld (size !! "h") (Some _)),
          <- (js_le_fld (size !! "w") (Some hi_w)),
          <- (js_le_fld (size !! "h") (Some hi_h)).
  simpl. tauto.
Qed.

Lemma bpWidth_of_constructed (e : option Element) :
  bpWidth_of (Metrics e) true =
    js_or (get (Metrics e) "bpWidth") (VNum (numZ 0)) /\
  bpHeight_of (Metrics e) true =
    js_or (get (Metrics e) "bpHeight") (VNum (numZ 0)).
Proof.
  destruct (Metrics_no_outer_size e) as [Hw Hh].
  unfold bpWidth_of, bpHeight_of. split.
  - unfold get at 2. by rewrite Hw.
  - unfold get at 2. by rewrite Hh.
Qed.

Lemma merge_reads (a b : option obj) (outer : bool) :
  get (mergeSizeRange a b outer) "width" =
    Math_max (js_or (get (default ∅ a) "width") (VNum (numZ 0)))
             (js_or (js_add (get (default ∅ b) "width")
                            (bpWidth_of (default ∅ b) outer))
                    (VNum (numZ 0))) /\
  get (mergeSizeRange a b outer) "height" =
    Math_max (js_or (get (default ∅ a) "height") (VNum (numZ 0)))
             (js_or (js_add (get (default ∅ b) "height")
                            (bpHeight_of (default ∅ b) outer))
                    (VNum (numZ 0))).
Proof.
  unfold mergeSizeRange. cbv zeta. split.
  - unfold get at 1. by rewrite lookup_insert_eq.
  - unfold get at 1. by rewrite lookup_insert_ne, lookup_insert_eq.
Qed.

(** Sums of small whole numbers. *)
Lemma js_add_small (x y : Z) (bound : Z) :
  Z.abs x <= bound -> Z.abs y <= bound -> 2 * bound <= 2 ^ 53 ->
  js_add (VNum (numZ x)) (VNum (numZ y)) = VNum (numZ (x + y)).
Proof.
  intros Hx Hy Hb. cbn [js_add to_number]. rewrite num_add_numZ; [done|].
  unfold exact_integer. lia.
Qed.

Lemma snapshot_sizes (el : Element) :
  small (offsetWidth el) -> small (offsetHeight el) ->
  Forall (fun k => small (parsed (computedStyle el !! k))) footprint_styles ->
  let m := Metrics (Some el) in
  exists ow oh bw bh : Z,
    (offsetWidth el = numZ ow /\ offsetHeight el = numZ oh) /\
    (Z.abs ow <= 2 ^ 50 /\ Z.abs oh <= 2 ^ 50 /\
     Z.abs bw <= 2 ^ 52 /\ Z.abs bh <= 2 ^ 52) /\
    (m !! "bpWidth" = Some (VNum (numZ bw)) /\
     m !! "width" = Some (VNum (numZ (ow - bw)))) /\
    (m !! "bpHeight" = Some (VNum (numZ bh)) /\
     m !! "height" = Some (VNum (numZ (oh - bh)))).
Proof.
  intros How Hoh Hstyles.
  destruct (small_numZ _ How) as (ow & Eow & Bow).
  destruct (small_numZ _ Hoh) as (oh & Eoh & Boh).
  set (raw k := px_or_zero el (getStyleObject el) k).
  assert (forall k, k ∈ footprint_styles ->
            exists z : Z, raw k = VNum (numZ z) /\ Z.abs z <= 2 ^ 50) as Hraw.
  { intros k Hk. unfold raw, px_or_zero. rewrite toPixels_parsed.
    rewrite Forall_forall in Hstyles.
    destruct (small_numZ _ (Hstyles k Hk)) as (z & Ez & Bz).
    exists z. split; [|done]. unfold getStyleObject. by rewrite Ez. }
  destruct (Hraw "borderTopWidth") as (bt & Ebt & Bbt);
    [apply list_elem_of_In; simpl; tauto|].
  destruct (Hraw "borderBottomWidth") as (bb & Ebb & Bbb);
    [apply list_elem_of_In; simpl; tauto|].
  destruct (Hraw "borderLeftWidth") as (bl & Ebl & Bbl);
    [apply list_elem_of_In; simpl; tauto|].
  destruct (Hraw "borderRightWidth") as (br & Ebr & Bbr);
    [apply list_elem_of_In; simpl; tauto|].
  destruct (Hraw "paddingTop") as (pt & Ept & Bpt);
    [apply list_elem_of_In; simpl; tauto|].
  destruct (Hraw "paddingBottom") as (pb & Epb & Bpb);
    [apply list_elem_of_In; simpl; tauto|].
  destruct (Hraw "paddingLeft") as (pl & Epl & Bpl);
    [apply list_elem_of_In; simpl; tauto|].
  destruct (Hraw "paddingRight") as (pr & Epr & Bpr);
    [apply list_elem_of_In; simpl; tauto|].
  set (rawW := js_add (js_add (raw "borderLeftWidth") (raw "paddingLeft"))
                      (js_add (raw "borderRightWidth") (raw "paddingRight"))).
  set (rawH := js_add (js_add (raw "borderTopWidth") (raw "paddingTop"))
                      (js_add (raw "borderBottomWidth") (raw "paddingBottom"))).
  change (2 ^ 50) with 1125899906842624 in *.
  assert (rawW = VNum (numZ (bl + pl + (br + pr)))) as EW.
  { subst rawW. rewrite Ebl, Epl, Ebr, Epr.
    rewrite (js_add_small bl pl 1125899906842624),
      (js_add_small br pr 1125899906842624) by (done || by vm_compute).
    apply (js_add_small _ _ 2251799813685248); (lia || by vm_compute). }
  assert (rawH = VNum (numZ (bt + pt + (bb + pb)))) as EH.
  { subst rawH. rewrite Ebt, Ept, Ebb, Epb.
    rewrite (js_add_small bt pt 1125899906842624),
      (js_add_small bb pb 1125899906842624) by (done || by vm_compute).
    apply (js_add_small _ _ 2251799813685248); (lia || by vm_compute). }
  intros m.
  exists ow, oh, (bl + pl + (br + pr)), (bt + pt + (bb + pb)).
  change (2 ^ 52) with 4503599627370496.
  split; [done|]. split; [lia|]. split; split.
  - transitivity (Some rawW); [reflexivity|]. by rewrite EW.
  - transitivity (Some (js_sub (VNum (offsetWidth el)) rawW)); [reflexivity|].
    rewrite EW, Eow. unfold js_sub. cbn [to_number].
    rewrite num_sub_numZ; [done|].
    unfold exact_integer. change (2 ^ 53) with 9007199254740992. lia.
  - transitivity (Some rawH); [reflexivity|]. by rewrite EH.
  - transitivity (Some (js_sub (VNum (offsetHeight el)) rawH)); [reflexivity|].
    rewrite EH, Eoh. unfold js_sub. cbn [to_number].
    rewrite num_sub_numZ; [done|].
    unfold exact_integer. change (2 ^ 53) with 9007199254740992. lia.
Qed.

(** X13.  Merged with [outer], the snapshot of an element contributes its
    rendered size, as long as the rendered size and the eight borders
    and paddings are whole numbers of at most 2^50 pixels, so that the
    sums and differences of the constructor are exact: adding the
    border and padding back to the content box gives [offsetWidth] and
    [offsetHeight] again, so the merged width and height are the
    larger of the range's and the rendered ones. *)
Theorem mergeSizeRange_snapshot_outer (el : Element)
    (a : option (gmap string number)) :
  small (offsetWidth el) -> small (offsetHeight el) ->
  Forall (fun k => small (parsed (computedStyle el !! k))) footprint_styles ->
  let r :=
    mergeSizeRange (of_numbers <$> a) (Some (Metrics (Some el))) true in
  get r "width" =
    VNum (num_max (min_of (default ∅ a !! "width"))
                  (min_of (Some (offsetWidth el)))) /\
  get r "height" =
    VNum (num_max (min_of (default ∅ a !! "height"))
                  (min_of (Some (offsetHeight el)))).
Proof.
  intros How Hoh Hstyles r. subst r.
  destruct (snapshot_sizes el How Hoh Hstyles)
    as (ow & oh & bw & bh & [Eow Eoh] & (Bow & Boh & Bbw & Bbh) &
        [Hbw Hw] & [Hbh Hh]).
  destruct (bpWidth_of_constructed (Some el)) as [Ebw Ebh].
  set (m := Metrics (Some el)) in *. clearbody m.
  change (2 ^ 50) with 1125899906842624 in *.
  change (2 ^ 52) with 4503599627370496 in *.
  assert (forall (k : string) (o bp : Z) (fp : value),
    Z.abs o <= 1125899906842624 ->
    m !! k = Some (VNum (numZ (o - bp))) ->
    fp = js_or (VNum (numZ bp)) (VNum (numZ 0)) ->
    Math_max (js_or (get (default ∅ (of_numbers <$> a)) k) (VNum (numZ 0)))
             (js_or (js_add (get m k) fp) (VNum (numZ 0))) =
    VNum (num_max (min_of (default ∅ a !! k)) (min_of (Some (numZ o)))))
    as Hside.
  { intros k o bp fp Bo Hk ->.
    rewrite default_of_numbers, get_of_numbers, or_zero_fld.
    unfold get at 1. rewrite Hk. cbn [default from_option id].
    rewrite (or_zero_num (numZ bp)).
    rewrite (min_of_number (numZ bp)) by done.
    cbn [js_add to_number]. rewrite num_add_numZ.
    - replace (o - bp + bp) with o by lia. by rewrite (or_zero_num (numZ o)).
    - unfold exact_integer. change (2 ^ 53) with 9007199254740992. lia. }
  destruct (merge_reads (of_numbers <$> a) (Some m) true) as [-> ->].
  change (default ∅ (Some m)) with m. rewrite Ebw, Ebh, Eow, Eoh. split.
  - apply (Hside "width" ow bw); [done|done|]. unfold get. by rewrite Hbw.
  - apply (Hside "height" oh bh); [done|done|]. unfold get. by rewrite Hbh.
Qed.
End RangesAndSnapshots.

(** ** The own properties of a clone *)

Section CloneOwn.
Context `{Runtime}.
Variable prototype : gmap string string.
Variable enumerable : list string.

(** X14.  The clone has the very own properties of its source exactly when
    no own property of the source holds what the prototype gives under
    its name.  A property that holds [undefined] is dropped when
    nothing is inherited under its name, and copied when something is:
    the copy then inherits a function there, which [undefined]
    differs from. *)
Theorem clone_own_properties (h : heap) (this : loc) (o : obj) :
  h !! this = Some o ->
  let r := clone prototype enumerable this h in
  (r.2 !! r.1 = Some o <->
   forall k v, o !! k = Some v -> v <> inherited prototype k) /\
  (forall k, prototype !! k = None -> o !! k = Some VUndef ->
     exists oc, r.2 !! r.1 = Some oc /\ oc !! k = None) /\
  (forall k f, prototype !! k = Some f -> o !! k = Some VUndef ->
     exists oc, r.2 !! r.1 = Some oc /\ oc !! k = Some VUndef).
Proof.
  intros Ho r. subst r. rewrite (clone_result prototype enumerable h this o Ho).
  simpl. rewrite lookup_insert_eq. split; [|split].
  - rewrite <- kept_all. split; [by intros [= ->]|by intros ->].
  - intros k Hp Hk. eexists. split; [done|].
    apply map_lookup_filter_None. right. intros v Hv. simpl.
    unfold inherited. rewrite Hp. congruence.
  - intros k f Hp Hk. eexists. split; [done|].
    apply map_lookup_filter_Some. split; [done|]. simpl.
    unfold inherited. by rewrite Hp.
Qed.
End CloneOwn.

(** ** The pixel setter *)

Lemma string_app_assoc (a b c : string) :
  ((a ++ b) ++ c)%string = (a ++ (b ++ c))%string.
Proof.
  induction a as [|x a IH]; [reflexivity|].
  change (String x ((a ++ b) ++ c) = String x (a ++ (b ++ c)))%string.
  by rewrite IH.
Qed.

Lemma pixel_literal_px (neg : bool) (ds : list nat) :
  (pixel_literal neg ds "" ++ "px")%string = pixel_literal neg ds "px".
Proof. unfold pixel_literal. by rewrite !string_app_assoc. Qed.

Section SetterSpec.
Context `{Runtime}.
Variable Style : Type.
Variable assign : Style -> string -> value -> Style.

(** X15.  What [setCssPx] hands to the style can be read back by [toPixels]:
    for a whole number that the runtime prints as a decimal numeral
    which parses back to it, the value assigned to the property is a
    pixel string that [toPixels] turns into the number supplied, which
    is also the number returned.  What the host makes of the
    assignment is its own business. *)
Theorem setCssPx_read_back (el : Element) (style : Style) (propName : string)
    (z : Z) (neg : bool) (ds : list nat) :
  is_numeral ds ->
  NumberToString (numZ z) = pixel_literal neg ds "" ->
  literal_value neg ds = numZ z ->
  let r := setCssPx Style assign style propName (numZ z) in
  r.2 = numZ z /\
  exists s : string,
    r.1 = assign style propName (VStr s) /\
    toPixels el (Some s) = VNum (numZ z).
Proof.
  intros Hds Hprint Hval r. subst r. unfold setCssPx. simpl.
  split; [done|].
  exists (pixel_literal neg ds "px"). split.
  - by rewrite Hprint, pixel_literal_px.
  - assert (px_suffix "px") as Hpx by (right; left; reflexivity).
    destruct (pixel_test_literal neg ds "px" Hds Hpx) as (Ht & Hv & Hne).
    unfold toPixels. by rewrite Hne, Ht, Hv, Hval.
Qed.
End SetterSpec.

(** ** The legacy conversion *)

Lemma pixel_test_number_test (s : string) :
  pixel_test s = true -> number_test s = true.
Proof.
  unfold pixel_test, number_test.
  destruct (match s with String "-"%char r => r | _ => s end) as [|c r];
    [done|].
  by intros [Hc _]%andb_true_iff.
Qed.

(** X16.  The legacy [toPixels] leaves the element as it found it, whatever
    branch it takes: [style.left] and [runtimeStyle.left], which it
    overwrites to measure, are put back. *)
Theorem toPixels_IE_restores (pixelLeft : LegacyElement -> value)
    (el : LegacyElement) (val : option string) :
  (toPixels_IE pixelLeft el val).2 = el.
Proof.
  unfold toPixels_IE. destruct el as [sl rl cl], val as [s|]; [|done].
  destruct (negb (String.eqb s "") && pixel_test s); [done|].
  by destruct (negb (String.eqb s "") && number_test s).
Qed.

(** X17.  The legacy [toPixels] returns what the standard one returns on an
    absent value, on every pixel string, and on every string that does
    not begin with a digit or with a minus sign and a digit; the host
    is asked to measure in no other case. *)
Theorem toPixels_IE_agrees (pixelLeft : LegacyElement -> value)
    (legacy : LegacyElement) (el : Element) (s : string) :
  is_pixel_literal s \/ number_test s = false ->
  (toPixels_IE pixelLeft legacy (Some s)).1 = toPixels el (Some s) /\
  (toPixels_IE pixelLeft legacy None).1 = toPixels el None.
Proof.
  intros Hs. split; [|done]. unfold toPixels_IE, toPixels.
  destruct (pixel_test s) eqn:Et.
  - by destruct (negb (String.eqb s "")).
  - rewrite andb_false_r. destruct Hs as [(neg & ds & t & Hds & Ht & ->)|Hn].
    + by rewrite pixel_literal_test in Et.
    + by rewrite Hn, andb_false_r.
Qed.

(* ================================================================== *)
(** * Worked inputs *)
(* ================================================================== *)

#[local] Existing Instance example_runtime.

(** A range with minimums 100 by 50 and a maximum width of 200 accepts
    the size 200 by 50: both bounds it meets are inclusive, and the
    maximum height, being absent, does not constrain. *)
Lemma inSizeRange_on_bounds :
  inSizeRange (Some (of_numbers range_100_200)) (of_numbers size_200_50) = true.
Proof.
  apply (proj2 inSizeRange_spec).
  split; [by vm_compute|]. split; [by vm_compute|].
  split; [right; by vm_compute|]. left. left. reflexivity.
Defined.

(** A maximum of 0 is present, yet the merge treats it as unbounded:
    merging a range capped at 0 with one capped at 100 gives 100, not
    the smaller of 0 and 100. *)
Lemma mergeSizeRange_zero_maximum :
  get (mergeSizeRange (Some (of_numbers cap_0)) (Some (of_numbers cap_100))
         false) "maxW" = VNum (numZ 100) /\
  num_min (max_absent_inf (cap_0 !! "maxW"))
          (max_absent_inf (cap_100 !! "maxW")) = numZ 0 /\
  numZ 100 <> numZ 0.
Proof.
  split; [|split].
  - by_evaluation.
  - by_evaluation.
  - intros E. by apply numZ_inj in E.
Qed.

(** An aggregate [bpWidth] of 0 is present, yet the footprint falls back
    on [outerWidth - width]: 20 here, and a merged width of 120, where
    taking the aggregate would add nothing and give 100. *)
Lemma mergeSizeRange_zero_aggregate :
  bpWidth_of (of_numbers metrics_bp_0) true = VNum (numZ 20) /\
  footprint_if_absent (metrics_bp_0 !! "bpWidth")
    (metrics_bp_0 !! "outerWidth") (metrics_bp_0 !! "width") = numZ 0 /\
  get (mergeSizeRange (Some (of_numbers range_50_300))
         (Some (of_numbers metrics_bp_0)) true) "width" = VNum (numZ 120) /\
  numZ 20 <> numZ 0.
Proof.
  split; [|split; [|split]].
  - by_evaluation.
  - by_evaluation.
  - by_evaluation.
  - intros E. by apply numZ_inj in E.
Qed.

(** The merge theorems on a range and the snapshot of the boxed
    element: the content box is 90 by 40, and 100 by 50 with its border
    and padding. *)
Lemma mergeSizeRange_inner_snapshot :
  mergeSizeRange (Some (of_numbers range_50_300))
    (Some (Metrics (Some boxed_element))) false =
  size_range (numZ 90) (numZ 50) (numZ 300) (numZ 300).
Proof.
  destruct (mergeSizeRange_inner (Some (of_numbers range_50_300))
              (Some (Metrics (Some boxed_element)))) as [E _].
  - by_evaluation.
  - rewrite E. by_evaluation.
Defined.

Lemma mergeSizeRange_outer_snapshot :
  mergeSizeRange (Some (of_numbers range_50_300))
    (Some (Metrics (Some boxed_element))) true =
  size_range (numZ 100) (numZ 50) (numZ 300) (numZ 300).
Proof.
  destruct (mergeSizeRange_outer (Some (of_numbers range_50_300))
              (Some (Metrics (Some boxed_element)))) as [E _].
  - by_evaluation.
  - by_evaluation.
  - rewrite E. by_evaluation.
Defined.

(** [toPixels] on two pixel literals and on a length in another unit. *)
Lemma toPixels_examples :
  toPixels boxed_element (Some "12px"%string) = VNum (numZ 12) /\
  toPixels boxed_element (Some "-7PX"%string) = VNum (numZ (-7)) /\
  toPixels boxed_element (Some "1.5em"%string) = VNull.
Proof.
  destruct (toPixels_spec boxed_element) as (Hlit & Hother & _).
  split; [|split].
  - apply (Hlit false [1; 2]%nat "px"%string).
    + split; [done|]. repeat constructor; lia.
    + right. left. reflexivity.
    + by vm_compute.
  - apply (Hlit true [7]%nat "PX"%string).
    + split; [done|]. repeat constructor; lia.
    + do 4 right. left. reflexivity.
    + by vm_compute.
  - apply Hother. intros (neg & ds & t & Hds & Ht & Hs).
    pose proof (pixel_literal_test neg ds t Hds Ht) as Htest.
    rewrite <- Hs in Htest. discriminate Htest.
Defined.

(** A top margin of [-5px] is stored as -5. *)
Lemma Metrics_negative_margin :
  Metrics (Some negative_margin_element) !! "marginTop" =
    Some (VNum (numZ (-5))) /\
  ~ num_le (numZ 0) (numZ (-5)).
Proof.
  split.
  - by_evaluation.
  - by vm_compute.
Qed.

(** The top margin of the boxed element is 10, which is not negative. *)
Lemma Metrics_sides_example :
  Metrics (Some boxed_element) !! "marginTop" = Some (VNum (numZ 10)) /\
  num_le (numZ 0) (numZ 10).
Proof.
  pose proof (Metrics_sides boxed_element) as HF.
  apply Forall_cons in HF as [(Hz & _ & _ & Hpos & Hlit) _].
  destruct (Hlit false [1; 0]%nat "px"%string) as [_ Hex].
  - split; [done|]. repeat constructor; lia.
  - right. left. reflexivity.
  - reflexivity.
  - rewrite Hex in Hz, Hpos by (by vm_compute). split; [exact Hz|].
    apply Hpos. intros (ds & t & _ & _ & E).
    change (Some "10px"%string = Some (String "-"%char (numeral ds ++ t)))
      in E.
    discriminate E.
Defined.



(** Cloning a snapshot made without an element and extended by its
    caller. *)
Lemma clone_extended_snapshot :
  clone_post Metrics_prototype 7%positive extended_snapshot example_store
    (clone Metrics_prototype Metrics_enumerable 7%positive example_store).
Proof. apply clone_spec. reflexivity. Defined.

(** The source owns [extra], which holds [undefined]; its clone owns
    [width] and nothing else. *)
Lemma clone_drops_undefined :
  sparse_store !! 7%positive = Some sparse_snapshot /\
  sparse_snapshot !! "extra" = Some VUndef /\
  (clone Metrics_prototype Metrics_enumerable 7%positive sparse_store).2
    !! (clone Metrics_prototype Metrics_enumerable 7%positive sparse_store).1
    = Some (<["width" := VNum (numZ 3)]> ∅).
Proof.
  split; [reflexivity|]. split; [reflexivity|].
  rewrite (clone_result Metrics_prototype Metrics_enumerable sparse_store
             7%positive sparse_snapshot eq_refl).
  simpl. rewrite lookup_insert_eq. by_evaluation.
Qed.

(** The footprint of the snapshot made without an element, which has no
    [bpWidth], and of the snapshot of an element without border or
    padding, whose [bpWidth] is 0. *)
Lemma snapshot_footprint_examples :
  bpWidth_of (Metrics None) true = VNum (numZ 0) /\
  bpWidth_of (Metrics (Some plain_element)) true = VNum (numZ 0).
Proof.
  split.
  - destruct (snapshot_footprint None) as (_ & _ & Hw & _).
    apply Hw. left. reflexivity.
  - destruct (snapshot_footprint (Some plain_element)) as (_ & _ & Hw & _).
    apply Hw. right. by_evaluation.
Defined.

(** [12.5px] holds a dot: [toPixels] returns [null] on it. *)
Lemma toPixels_fraction :
  toPixels boxed_element (Some "12.5px"%string) = VNull /\
  parsed (Some "12.5px"%string) = numZ 0.
Proof.
  apply (toPixels_foreign_char boxed_element "12.5px" "."%char).
  - do 2 right. left. reflexivity.
  - reflexivity.
Defined.

(** Rounding 7 up by tens gives 10, the least multiple of 10 above 7. *)
Lemma roundUp_7_10 :
  exists m : Z,
    roundUp (numZ 7) (numZ 10) = numZ (m * 10) /\
    7 < m * 10 /\
    forall k : Z, 7 < k * 10 -> m * 10 <= k * 10.
Proof. apply (roundUp_least_multiple 7 10); by vm_compute. Defined.

(** Rounding -13 up by tens gives 0 and skips -10. *)
Lemma roundUp_minus_13_10 :
  exists m : Z,
    roundUp (numZ (-13)) (numZ 10) = numZ (m * 10) /\
    -13 < (m - 1) * 10 /\ (m - 1) * 10 < m * 10.
Proof. apply (roundUp_negative_overshoot (-13) 10); by vm_compute. Defined.

(** With [outer], the snapshot of the boxed element counts for its
    rendered width of 100. *)
Lemma mergeSizeRange_boxed_outer :
  get (mergeSizeRange (Some (of_numbers range_50_300))
         (Some (Metrics (Some boxed_element))) true) "width" =
  VNum (numZ 100).
Proof.
  destruct (mergeSizeRange_snapshot_outer boxed_element (Some range_50_300))
    as [E _].
  - by_evaluation.
  - by_evaluation.
  - by_evaluation.
  - etransitivity; [exact E|]. by_evaluation.
Defined.

(** A source that owns [constructor], holding [undefined]: every object
    inherits a function under that name, so the clone owns the
    property too. *)
Lemma clone_shadowing_own :
  exists oc : obj,
    (clone Metrics_prototype Metrics_enumerable 8%positive sparse_store).2
      !! (clone Metrics_prototype Metrics_enumerable 8%positive
            sparse_store).1 = Some oc /\
    oc !! "constructor" = Some VUndef.
Proof.
  destruct (clone_own_properties Metrics_prototype Metrics_enumerable
              sparse_store 8%positive shadowing_snapshot eq_refl)
    as (_ & _ & Hkept).
  apply (Hkept "constructor"%string "Metrics"%string); reflexivity.
Defined.

(** Writing 12 pixels and reading them back, on a runtime that prints
    whole numbers in decimal and a style that stores what it is
    given. *)
Lemma setCssPx_12 :
  (setCssPx (H := decimal_runtime) obj (fun st k v => <[k := v]> st)
     ∅ "width" (numZ 12)).2 = numZ 12 /\
  exists s : string,
    (setCssPx (H := decimal_runtime) obj (fun st k v => <[k := v]> st)
       ∅ "width" (numZ 12)).1 = <["width" := VStr s]> ∅ /\
    toPixels boxed_element (Some s) = VNum (numZ 12).
Proof.
  apply (setCssPx_read_back (H := decimal_runtime) obj
           (fun st k v => <[k := v]> st) boxed_element ∅ "width"
           12 false [1; 2]%nat).
  - split; [done|]. repeat constructor; lia.
  - reflexivity.
  - by_evaluation.
Defined.

(** On [12px] and on [auto] the legacy conversion asks the host for
    nothing and answers like the standard one. *)
Lemma toPixels_IE_examples :
  ((toPixels_IE no_pixelLeft legacy_element (Some "12px"%string)).1 =
     toPixels boxed_element (Some "12px"%string) /\
   (toPixels_IE no_pixelLeft legacy_element None).1 =
     toPixels boxed_element None) /\
  ((toPixels_IE no_pixelLeft legacy_element (Some "auto"%string)).1 =
     toPixels boxed_element (Some "auto"%string) /\
   (toPixels_IE no_pixelLeft legacy_element None).1 =
     toPixels boxed_element None).
Proof.
  split.
  - apply toPixels_IE_agrees. left. exists false, [1; 2]%nat, "px"%string.
    split; [split; [done|repeat constructor; lia]|].
    split; [right; left; reflexivity|reflexivity].
  - apply toPixels_IE_agrees. right. reflexivity.
Defined.
